(** * fix_md032: blank lines before Markdown list items

    A shallow embedding of [scratch/fix_md032.py] and the properties of
    its line transformation, of its in-place rewrite of one file and of
    its walk over the [docs] tree.

    Python [str] values are lists of Unicode code points.  The text
    layer of [open] is written out (universal newlines on reading,
    [os.linesep] on writing); a file that is valid UTF-8 is held by its
    decoded text. *)

From Stdlib Require Import String Ascii.
From Stdlib Require Import List NArith Bool Arith Lia.
Import ListNotations.

(** ** Python strings *)

Definition char := N.
Definition str := list char.

Definition LF : char := 0x0A%N.
Definition CR : char := 0x0D%N.

(** [py "..."] reads a literal the way Python reads it, for the escapes
    used here: [\n], [\r], [\t], [\v], [\f] and [\\] stand for one
    character. *)
Fixpoint py (s : string) : str :=
  match s with
  | EmptyString => []
  | String "\"%char (String c s') =>
      (match c with
       | "n"%char => LF
       | "r"%char => CR
       | "t"%char => 0x09%N
       | "v"%char => 0x0B%N
       | "f"%char => 0x0C%N
       | _ => N_of_ascii c
       end) :: py s'
  | String c s' => N_of_ascii c :: py s'
  end.

(** [Py_UNICODE_ISSPACE]: the characters that [str.strip()] removes and
    that [\s] matches in a [str] pattern (CPython's
    [_PyUnicode_IsWhitespace]). *)
Definition Py_UNICODE_ISSPACE (c : char) : bool :=
  ((0x09 <=? c) && (c <=? 0x0D)        (* \t \n \v \f \r *)
   || (0x1C <=? c) && (c <=? 0x20)     (* FS GS RS US and the space *)
   || (c =? 0x85) || (c =? 0xA0) || (c =? 0x1680)
   || (0x2000 <=? c) && (c <=? 0x200A)
   || (c =? 0x2028) || (c =? 0x2029) || (c =? 0x202F)
   || (c =? 0x205F) || (c =? 0x3000))%N.

Definition is_ascii_digit (c : char) : bool :=
  ((0x30 <=? c) && (c <=? 0x39))%N.

(** [\d] in a [str] pattern matches every Unicode decimal digit
    (category Nd).  The table belongs to the Unicode database of the
    interpreter that runs the script; what the development uses of it is
    that below 128 it is [0-9] and that no decimal digit is whitespace. *)
Record unicode_db : Type := {
  is_decimal : char -> bool;
  decimal_ascii : forall c, (c < 128)%N -> is_decimal c = is_ascii_digit c;
  decimal_not_space : forall c, is_decimal c = true -> Py_UNICODE_ISSPACE c = false
}.

(** The table restricted to ASCII, as under [re.ASCII]; every table agrees
    with it on ASCII text. *)
Definition ascii_db : unicode_db.
Proof.
  refine {| is_decimal := is_ascii_digit |}.
  - abstract reflexivity.
  - abstract (intros c H; unfold is_ascii_digit in H;
      apply andb_true_iff in H; destruct H as [H1 H2];
      apply N.leb_le in H1; apply N.leb_le in H2;
      unfold Py_UNICODE_ISSPACE;
      repeat match goal with
      | |- context [(?a <=? ?b)%N] => destruct (N.leb_spec a b); try lia
      | |- context [(?a =? ?b)%N] => destruct (N.eqb_spec a b); try lia
      end; reflexivity).
Defined.

Definition is_ascii (c : char) : bool := (c <? 128)%N.

(** ** [str.strip], [str.endswith] *)

Fixpoint lstrip (s : str) : str :=
  match s with
  | [] => []
  | c :: s' => if Py_UNICODE_ISSPACE c then lstrip s' else s
  end.

Definition rstrip (s : str) : str := rev (lstrip (rev s)).

Definition strip (s : str) : str := rstrip (lstrip s).

Definition str_eqb (a b : str) : bool :=
  if list_eq_dec N.eq_dec a b then true else false.

Fixpoint startswith (s prefix : str) : bool :=
  match prefix, s with
  | [], _ => true
  | p :: prefix', c :: s' => (c =? p)%N && startswith s' prefix'
  | _ :: _, [] => false
  end.

Definition endswith (s suffix : str) : bool :=
  startswith (rev s) (rev suffix).

(** ** The fragment of [re] the script uses

    [re.match(p, s)] is truthy when some prefix of [s] belongs to the
    language of [p].  Groups do not change the language, and [^] is
    redundant under [re.match]. *)

Inductive regex : Type :=
| Void : regex
| Eps : regex
| Class (p : char -> bool) : regex
| Cat (r1 r2 : regex) : regex
| Alt (r1 r2 : regex) : regex
| Star (r : regex) : regex.

Definition Plus (r : regex) : regex := Cat r (Star r).

Definition one_of (cs : str) (c : char) : bool := existsb (N.eqb c) cs.

Fixpoint nullable (r : regex) : bool :=
  match r with
  | Void => false
  | Eps => true
  | Class _ => false
  | Cat r1 r2 => nullable r1 && nullable r2
  | Alt r1 r2 => nullable r1 || nullable r2
  | Star _ => true
  end.

Fixpoint deriv (c : char) (r : regex) : regex :=
  match r with
  | Void => Void
  | Eps => Void
  | Class p => if p c then Eps else Void
  | Cat r1 r2 =>
      if nullable r1 then Alt (Cat (deriv c r1) r2) (deriv c r2)
      else Cat (deriv c r1) r2
  | Alt r1 r2 => Alt (deriv c r1) (deriv c r2)
  | Star r1 => Cat (deriv c r1) (Star r1)
  end.

Fixpoint re_match (r : regex) (s : str) {struct s} : bool :=
  nullable r ||
  match s with
  | [] => false
  | c :: s' => re_match (deriv c r) s'
  end.

(** The language of a pattern. *)
Inductive matches : regex -> str -> Prop :=
| M_eps : matches Eps []
| M_class p c : p c = true -> matches (Class p) [c]
| M_cat r1 r2 s1 s2 :
    matches r1 s1 -> matches r2 s2 -> matches (Cat r1 r2) (s1 ++ s2)
| M_alt_l r1 r2 s : matches r1 s -> matches (Alt r1 r2) s
| M_alt_r r1 r2 s : matches r2 s -> matches (Alt r1 r2) s
| M_star_nil r : matches (Star r) []
| M_star_app r s1 s2 :
    matches r s1 -> matches (Star r) s2 -> matches (Star r) (s1 ++ s2).

(** ** Line classification (line 12 of the script) *)

Section Classification.

Variable db : unicode_db.

(** First pattern: leading whitespace (the group), one of [-], [*], [+],
    then one whitespace character. *)
Definition bullet_re : regex :=
  Cat (Star (Class Py_UNICODE_ISSPACE))
      (Cat (Class (one_of (py "-*+"))) (Class Py_UNICODE_ISSPACE)).

(** Second pattern: leading whitespace (the group), one or more decimal
    digits, a dot, then one whitespace character. *)
Definition number_re : regex :=
  Cat (Star (Class Py_UNICODE_ISSPACE))
      (Cat (Plus (Class (is_decimal db)))
           (Cat (Class (one_of (py "."))) (Class Py_UNICODE_ISSPACE))).

Definition is_list_item (line : str) : bool :=
  re_match bullet_re line || re_match number_re line.

End Classification.

(** [line.strip() != ''] fails: the line is blank. *)
Definition is_blank (line : str) : bool := str_eqb (strip line) [].

(** ** The loop of [fix_md032_in_file] (lines 8 to 17) *)

Definition enumerate {A : Type} (l : list A) : list (nat * A) :=
  combine (seq 0 (length l)) l.

Section Loop.

Variable db : unicode_db.

(** One iteration.  [lines[i-1]] is only evaluated when [i > 0], where it
    is in range. *)
Definition loop_body (lines : list str) (st : list str * bool)
    (it : nat * str) : list str * bool :=
  let '(result_lines, modified) := st in
  let '(i, line) := it in
  let '(result_lines, modified) :=
    if is_list_item db line then
      if (0 <? i) && negb (is_blank (nth (i - 1) lines [])) then
        (result_lines ++ [py "\n"], true)
      else (result_lines, modified)
    else (result_lines, modified) in
  (result_lines ++ [line], modified).

Definition fix_lines (lines : list str) : list str * bool :=
  fold_left (loop_body lines) (enumerate lines) ([], false).

End Loop.

(** ** The text layer of [open]

    With the default [newline=None], reading turns each of [\r\n], [\r]
    and [\n] into [\n], and writing turns each [\n] into [os.linesep]. *)

Inductive platform : Type := posix | nt.

Definition os_linesep (os : platform) : str :=
  match os with posix => py "\n" | nt => py "\r\n" end.

Definition os_sep (os : platform) : str :=
  match os with posix => py "/" | nt => py "\\" end.

Fixpoint universal_newlines (s : str) : str :=
  match s with
  | [] => []
  | c :: s' =>
      if (c =? CR)%N then
        LF :: match s' with
              | [] => []
              | d :: s'' =>
                  if (d =? LF)%N then universal_newlines s''
                  else universal_newlines s'
              end
      else c :: universal_newlines s'
  end.

(** [readlines()] on translated text: split after each [\n], keeping it. *)
Fixpoint split_lines (s : str) : list str :=
  match s with
  | [] => []
  | c :: s' =>
      if (c =? LF)%N then [c] :: split_lines s'
      else match split_lines s' with
           | [] => [[c]]
           | l :: ls => (c :: l) :: ls
           end
  end.

Definition write_newlines (os : platform) (s : str) : str :=
  flat_map (fun c => if (c =? LF)%N then os_linesep os else [c]) s.

(** ** Files and directories

    The bytes of a file are kept decoded when they are valid UTF-8 (the
    strict codec is one-to-one on those) and raw otherwise. *)

Inductive content : Type :=
| Utf8 (text : str)
| Undecodable (raw : list N).

#[local] Unset Elimination Schemes.

Inductive node : Type :=
| File (c : content)
| Dir (entries : list (str * node)).

#[local] Set Elimination Schemes.

(** A path is the list of its components, from the working directory. *)
Definition path := list str.

Definition os_path_join (root : path) (name : str) : path := root ++ [name].

Fixpoint path_str (os : platform) (p : path) : str :=
  match p with
  | [] => []
  | name :: p' =>
      match p' with
      | [] => name
      | _ :: _ => name ++ os_sep os ++ path_str os p'
      end
  end.

Fixpoint assoc (name : str) (es : list (str * node)) : option node :=
  match es with
  | [] => None
  | (k, n) :: es' => if str_eqb k name then Some n else assoc name es'
  end.

Fixpoint lookup (p : path) (n : node) : option node :=
  match p with
  | [] => Some n
  | name :: p' =>
      match n with
      | Dir es =>
          match assoc name es with
          | Some n' => lookup p' n'
          | None => None
          end
      | File _ => None
      end
  end.

Definition read_file (p : path) (n : node) : option content :=
  match lookup p n with
  | Some (File c) => Some c
  | _ => None
  end.

Fixpoint update_entry (name : str) (f : node -> option node)
    (es : list (str * node)) : option (list (str * node)) :=
  match es with
  | [] => None
  | (k, n) :: es' =>
      if str_eqb k name then option_map (fun n' => (k, n') :: es') (f n)
      else option_map (cons (k, n)) (update_entry name f es')
  end.

(** Replace the content of the regular file at [p]. *)
Fixpoint store (p : path) (c : content) (n : node) : option node :=
  match p, n with
  | [], File _ => Some (File c)
  | name :: p', Dir es => option_map Dir (update_entry name (store p' c) es)
  | _, _ => None
  end.

Definition is_dir (n : node) : bool :=
  match n with Dir _ => true | File _ => false end.

Definition dirnames (es : list (str * node)) : list str :=
  map fst (filter (fun e => is_dir (snd e)) es).

Definition filenames (es : list (str * node)) : list str :=
  map fst (filter (fun e => negb (is_dir (snd e))) es).

(** [os.walk], top-down: the triple of a directory, then the walks of its
    sub-directories in listing order. *)
Fixpoint walk_node (top : path) (n : node)
    : list (path * list str * list str) :=
  match n with
  | File _ => []
  | Dir es =>
      (top, dirnames es, filenames es) ::
      (fix walk_entries (l : list (str * node)) :=
         match l with
         | [] => []
         | (name, n') :: l' =>
             (if is_dir n' then walk_node (os_path_join top name) n' else [])
             ++ walk_entries l'
         end) es
  end.

(** ** Effects: the file system, exceptions and a trace *)

Inductive event : Type :=
| EvRead (p : path)
| EvWrite (p : path)
| EvPrint (msg : str).

Inductive exn : Type := UnicodeDecodeError | OSError.

Inductive outcome (A : Type) : Type :=
| Ok (a : A)
| Raise (e : exn).

Arguments Ok {A} a.
Arguments Raise {A} e.

Definition IO (A : Type) : Type := node -> outcome A * node * list event.

Definition ret {A : Type} (a : A) : IO A := fun fs => (Ok a, fs, []).

Definition bind {A B : Type} (m : IO A) (k : A -> IO B) : IO B :=
  fun fs =>
    match m fs with
    | (Ok a, fs1, t1) =>
        let '(o, fs2, t2) := k a fs1 in (o, fs2, t1 ++ t2)
    | (Raise e, fs1, t1) => (Raise e, fs1, t1)
    end.

Notation "x <- m ;; k" := (bind m (fun x => k))
  (at level 61, m at next level, right associativity).
Notation "m ;;; k" := (bind m (fun _ => k))
  (at level 61, right associativity).

Fixpoint for_each {A : Type} (l : list A) (body : A -> IO unit) : IO unit :=
  match l with
  | [] => ret tt
  | a :: l' => body a ;;; for_each l' body
  end.

Definition result_of {A : Type} (r : outcome A * node * list event) := fst (fst r).
Definition fs_of {A : Type} (r : outcome A * node * list event) := snd (fst r).
Definition trace_of {A : Type} (r : outcome A * node * list event) := snd r.

Section Script.

Variable db : unicode_db.
Variable os : platform.

(** Lines 5 and 6: [open(file_path, 'r', encoding='utf-8')] and
    [readlines()]. *)
Definition open_readlines (file_path : path) : IO (list str) :=
  fun fs =>
    match lookup file_path fs with
    | Some (File (Utf8 text)) =>
        (Ok (split_lines (universal_newlines text)), fs, [EvRead file_path])
    | Some (File (Undecodable _)) =>
        (Raise UnicodeDecodeError, fs, [EvRead file_path])
    | _ => (Raise OSError, fs, [])
    end.

(** Lines 20 and 21: [open(file_path, 'w', encoding='utf-8')] and
    [writelines(result_lines)]. *)
Definition open_writelines (file_path : path) (result_lines : list str)
    : IO unit :=
  fun fs =>
    match store file_path (Utf8 (write_newlines os (concat result_lines))) fs with
    | Some fs' => (Ok tt, fs', [EvWrite file_path])
    | None => (Raise OSError, fs, [])
    end.

Definition print (msg : str) : IO unit := fun fs => (Ok tt, fs, [EvPrint msg]).

Definition fixed_message (file_path : path) : str :=
  py "Fixed MD032 errors in " ++ path_str os file_path.

Definition fix_md032_in_file (file_path : path) : IO bool :=
  lines <- open_readlines file_path ;;
  let '(result_lines, modified) := fix_lines db lines in
  (if modified then
     open_writelines file_path result_lines ;;;
     print (fixed_message file_path)
   else ret tt) ;;;
  ret modified.

(** [os.walk(top)]; a [top] that cannot be listed yields nothing, since
    [os.walk] ignores the errors of [scandir] by default.  The generator
    lists each directory when the loop reaches it; the triples are taken
    here at once, which is the same because the loop body changes no
    listing (lemma [fix_walk_stable]). *)
Definition os_walk (top : path) : IO (list (path * list str * list str)) :=
  fun fs =>
    match lookup top fs with
    | Some n => (Ok (walk_node top n), fs, [])
    | None => (Ok [], fs, [])
    end.

(** Lines 26 to 30.  The value that [fix_md032_in_file] returns is
    dropped, and the script itself has no value. *)
Definition main : IO unit :=
  triples <- os_walk [py "docs"] ;;
  for_each triples (fun '(root, dirs, files) =>
    for_each files (fun file =>
      if endswith file (py ".md") then
        let file_path := os_path_join root file in
        fix_md032_in_file file_path ;;; ret tt
      else ret tt)).

End Script.

(** ** The classification in the words of the specification

    After stripping leading whitespace the line starts with a bullet
    character and a whitespace character, or with one or more digits, a
    dot and a whitespace character. *)

Definition spec_bullet_item (line : str) : Prop :=
  exists c sp rest,
    lstrip line = c :: sp :: rest /\
    In c (py "-*+") /\ Py_UNICODE_ISSPACE sp = true.

Definition spec_number_item (db : unicode_db) (line : str) : Prop :=
  exists digits sp rest,
    lstrip line = digits ++ py "." ++ sp :: rest /\
    digits <> [] /\
    Forall (fun d => is_decimal db d = true) digits /\
    Py_UNICODE_ISSPACE sp = true.

Definition spec_list_item (db : unicode_db) (line : str) : Prop :=
  spec_bullet_item line \/ spec_number_item db line.

(** ** The loop, index by index and line by line *)

Section LoopViews.

Variable db : unicode_db.

(** The guard of lines 12 and 13 at index [i] of [lines]. *)
Definition inserts_before (lines : list str) (i : nat) : bool :=
  is_list_item db (nth i lines []) &&
  ((0 <? i) && negb (is_blank (nth (i - 1) lines []))).

(** What iteration [i] appends to [result_lines]. *)
Definition block (lines : list str) (i : nat) : list str :=
  (if inserts_before lines i then [py "\n"] else []) ++ [nth i lines []].

(** The position of input line [i] in the output: [i] plus the number of
    blank lines inserted at or before it. *)
Definition new_pos (lines : list str) (i : nat) : nat :=
  i + length (filter (inserts_before lines) (seq 0 (S i))).

(** The same guard, given the previous input line if there is one. *)
Definition guard (prev : option str) (line : str) : bool :=
  is_list_item db line &&
  match prev with
  | Some p => negb (is_blank p)
  | None => false
  end.

(** The loop as a recursion over the lines still to read. *)
Fixpoint scan (prev : option str) (ls : list str) : list str * bool :=
  match ls with
  | [] => ([], false)
  | l :: ls' =>
      let '(out, m) := scan (Some l) ls' in
      if guard prev l then (py "\n" :: l :: out, true) else (l :: out, m)
  end.

(** Every list item of [ls] follows a blank line, [prev] being the line
    before the first. *)
Fixpoint blank_before_items (prev : str) (ls : list str) : Prop :=
  match ls with
  | [] => True
  | l :: ls' =>
      (is_list_item db l = true -> is_blank prev = true) /\
      blank_before_items l ls'
  end.

End LoopViews.

(** The line before the lines still to read. *)
Definition prev_of (pre : list str) : option str :=
  nth_error pre (length pre - 1).

(** The lists [readlines()] returns: every line but the last ends with
    its only [\n]; the last may lack it, and no line is empty. *)
Inductive line_list : list str -> Prop :=
| line_list_nil : line_list []
| line_list_last l : l <> [] -> ~ In LF l -> line_list [l]
| line_list_cons body ls :
    ~ In LF body -> line_list ls -> line_list ((body ++ [LF]) :: ls).

(** ** The walk, flattened *)

(** The sub-directory part of [walk_node]. *)
Definition walk_entries (top : path) (es : list (str * node))
    : list (path * list str * list str) :=
  flat_map (fun e => if is_dir (snd e)
                     then walk_node (os_path_join top (fst e)) (snd e)
                     else []) es.

Definition walk_of (top : path) (fs : node) : list (path * list str * list str) :=
  match lookup top fs with
  | Some n => walk_node top n
  | None => []
  end.

(** The paths the two loops of the script hand to [fix_md032_in_file], in
    order. *)
Definition md_paths (triples : list (path * list str * list str)) : list path :=
  flat_map (fun t => map (os_path_join (fst (fst t)))
                         (filter (fun file => endswith file (py ".md")) (snd t)))
           triples.

Definition run_files (db : unicode_db) (os : platform) (ps : list path) : IO unit :=
  for_each ps (fun p => fix_md032_in_file db os p ;;; ret tt).

(** The lines [fix_md032_in_file] reads from a file holding [text]. *)
Definition lines_of (text : str) : list str :=
  split_lines (universal_newlines text).

(** The file at [p] is text that the loop would change. *)
Definition needs_fix (db : unicode_db) (p : path) (fs : node) : bool :=
  match read_file p fs with
  | Some (Utf8 text) => snd (fix_lines db (lines_of text))
  | _ => false
  end.

(** ** Traces *)

Definition reads (t : list event) : list path :=
  flat_map (fun e => match e with EvRead p => [p] | _ => [] end) t.

Definition writes (t : list event) : list path :=
  flat_map (fun e => match e with EvWrite p => [p] | _ => [] end) t.

Definition prints (t : list event) : list str :=
  flat_map (fun e => match e with EvPrint msg => [msg] | _ => [] end) t.

(** ** The contract in the words of the specification

    [normalize(rootDirectory)] is the set of modified file paths: the
    Markdown files under the root to which a blank line has to be
    added. *)
Definition normalize_spec (db : unicode_db) (rootDirectory : path) (fs : node)
    : list path :=
  filter (fun p => needs_fix db p fs) (md_paths (walk_of rootDirectory fs)).

(** ** The four ways a call of [fix_md032_in_file] can go *)

Inductive fix_run (db : unicode_db) (os : platform) (p : path) (fs : node)
    : outcome bool * node * list event -> Prop :=
| fix_unchanged text :
    read_file p fs = Some (Utf8 text) ->
    snd (fix_lines db (lines_of text)) = false ->
    fix_run db os p fs (Ok false, fs, [EvRead p])
| fix_rewritten text fs' :
    read_file p fs = Some (Utf8 text) ->
    snd (fix_lines db (lines_of text)) = true ->
    store p (Utf8 (write_newlines os
                     (concat (fst (fix_lines db (lines_of text)))))) fs
      = Some fs' ->
    fix_run db os p fs
      (Ok true, fs', [EvRead p; EvWrite p; EvPrint (fixed_message os p)])
| fix_undecodable raw :
    read_file p fs = Some (Undecodable raw) ->
    fix_run db os p fs (Raise UnicodeDecodeError, fs, [EvRead p])
| fix_not_a_file :
    read_file p fs = None ->
    fix_run db os p fs (Raise OSError, fs, []).

(** The file at [p] is text in which every list item already follows a
    blank line or comes first. *)
Definition settled (db : unicode_db) (p : path) (fs : node) : Prop :=
  exists text, read_file p fs = Some (Utf8 text) /\
               snd (fix_lines db (lines_of text)) = false.

(** ** Example trees *)

Definition docs_tree (entries : list (str * node)) : node :=
  Dir [(py "docs", Dir entries)].

Definition text_file (s : string) : node := File (Utf8 (py s)).

Definition guide_md : path := [py "docs"; py "guide.md"].

Definition scenario1_input : str := py "Some text\n- item one\n- item two\n".

Definition scenario1_output : str := py "Some text\n\n- item one\n\n- item two\n".

Definition fs_scenario1 : node :=
  docs_tree [(py "guide.md", File (Utf8 scenario1_input))].

Definition fs_first_item : node :=
  docs_tree [(py "guide.md", text_file "- item\n")].

(** A file with Windows line ends, processed on a POSIX system. *)
Definition fs_crlf : node :=
  docs_tree [(py "guide.md", text_file "a\r\n- b\r\n")].

(** A tree whose Markdown files are not under [docs]. *)
Definition fs_notes_root : node :=
  Dir [(py "notes", Dir [(py "guide.md", text_file "a\n- b\n")])].

Definition fs_mixed : node :=
  docs_tree [(py "guide.md", text_file "a\n- b\n");
             (py "notes.txt", text_file "a\n- b\n");
             (py "README.MD", text_file "a\n- b\n");
             (py "sub", Dir [(py "deep.md", text_file "x\n1. y")])].

(** [0xC3 0x28] is not UTF-8. *)
Definition fs_broken : node :=
  docs_tree [(py "a.md", text_file "a\n- b\n");
             (py "bad.md", File (Undecodable [0xC3; 0x28]%N));
             (py "c.md", text_file "x\n1. y\n")].

(** ** Characters that end a line in a file *)

Definition is_newline (c : char) : bool := ((c =? LF) || (c =? CR))%N.

(** The text with its line terminators taken out. *)
Definition without_newlines (s : str) : str :=
  filter (fun c => negb (is_newline c)) s.

(** * Properties *)

(** ** Regular expressions: the matcher computes the language *)

Lemma nullable_matches r : nullable r = true <-> matches r [].
Proof.
  split.
  - induction r; simpl; intros H; try discriminate.
    + constructor.
    + apply andb_true_iff in H. destruct H as [H1 H2].
      change (@nil char) with (@nil char ++ []). constructor; auto.
    + apply orb_true_iff in H. destruct H; [apply M_alt_l | apply M_alt_r]; auto.
    + constructor.
  - intros H. remember (@nil char) as s eqn:E.
    induction H; simpl; try discriminate; auto.
    + apply app_eq_nil in E. destruct E. rewrite IHmatches1, IHmatches2; auto.
    + rewrite IHmatches; auto.
    + rewrite IHmatches; auto using orb_true_r.
Qed.

Lemma matches_class p s : matches (Class p) s <-> exists c, s = [c] /\ p c = true.
Proof.
  split.
  - intros H. inversion H; subst. eauto.
  - intros (c & -> & H). constructor; assumption.
Qed.

Lemma matches_cat r1 r2 s :
  matches (Cat r1 r2) s <->
  exists s1 s2, s = s1 ++ s2 /\ matches r1 s1 /\ matches r2 s2.
Proof.
  split.
  - intros H. inversion H; subst. eauto.
  - intros (s1 & s2 & -> & H1 & H2). constructor; assumption.
Qed.

Lemma matches_alt r1 r2 s :
  matches (Alt r1 r2) s <-> matches r1 s \/ matches r2 s.
Proof.
  split.
  - intros H. inversion H; subst; auto.
  - intros [H | H]; [apply M_alt_l | apply M_alt_r]; assumption.
Qed.

Lemma deriv_sound c r : forall s, matches (deriv c r) s -> matches r (c :: s).
Proof.
  induction r; simpl; intros s H.
  - inversion H.
  - inversion H.
  - destruct (p c) eqn:E; inversion H; subst. constructor; assumption.
  - assert (step : matches (Cat (deriv c r1) r2) s -> matches (Cat r1 r2) (c :: s)).
    { intros H'. apply matches_cat in H'. destruct H' as (s1 & s2 & -> & H1 & H2).
      change (c :: s1 ++ s2) with ((c :: s1) ++ s2). constructor; auto. }
    destruct (nullable r1) eqn:E; auto.
    apply matches_alt in H. destruct H as [H | H]; auto.
    change (c :: s) with ([] ++ c :: s). constructor; auto.
    apply nullable_matches; assumption.
  - apply matches_alt in H. apply matches_alt. destruct H; auto.
  - apply matches_cat in H. destruct H as (s1 & s2 & -> & H1 & H2).
    change (c :: s1 ++ s2) with ((c :: s1) ++ s2). constructor; auto.
Qed.

Lemma deriv_complete r cs :
  matches r cs -> forall c s, cs = c :: s -> matches (deriv c r) s.
Proof.
  induction 1; intros c0 s0 E; simpl.
  - discriminate.
  - injection E as -> <-. rewrite H. constructor.
  - destruct s1 as [|d s1]; simpl in E.
    + apply nullable_matches in H. rewrite H. apply M_alt_r; auto.
    + injection E as -> <-.
      destruct (nullable r1); [apply M_alt_l|]; constructor; auto.
  - apply M_alt_l; auto.
  - apply M_alt_r; auto.
  - discriminate.
  - destruct s1 as [|d s1]; simpl in E.
    + apply (IHmatches2 _ _ E).
    + injection E as -> <-. constructor; auto.
Qed.

Lemma deriv_matches c r s : matches (deriv c r) s <-> matches r (c :: s).
Proof.
  split; [apply deriv_sound | intros H; eapply deriv_complete; eauto].
Qed.

(** [re.match] succeeds exactly when a prefix of the string is in the
    language of the pattern. *)
Lemma re_match_spec s : forall r,
  re_match r s = true <-> exists pre post, s = pre ++ post /\ matches r pre.
Proof.
  induction s as [|c s IH]; intros r; simpl.
  - rewrite orb_false_r, nullable_matches. split.
    + intros H. exists [], []. auto.
    + intros (pre & post & E & H). symmetry in E. apply app_eq_nil in E.
      destruct E; subst; assumption.
  - rewrite orb_true_iff, nullable_matches, IH. split.
    + intros [H | (pre & post & -> & H)].
      * exists [], (c :: s). auto.
      * exists (c :: pre), post. split; auto. apply deriv_matches; assumption.
    + intros (pre & post & E & H). destruct pre as [|d pre]; simpl in E.
      * left; assumption.
      * injection E as <- ->. right. exists pre, post. split; auto.
        apply deriv_matches; assumption.
Qed.

Lemma matches_star_class p s :
  matches (Star (Class p)) s <-> forallb p s = true.
Proof.
  split.
  - intros H. remember (Star (Class p)) as r eqn:E.
    induction H; try discriminate; auto.
    injection E as ->. apply matches_class in H. destruct H as (c & -> & Hc).
    simpl. rewrite Hc. auto.
  - induction s as [|c s IH]; simpl; intros H.
    + constructor.
    + apply andb_true_iff in H. destruct H as [Hc Hs].
      change (c :: s) with ([c] ++ s). constructor; auto. constructor; auto.
Qed.

Lemma matches_plus_class p s :
  matches (Plus (Class p)) s <-> s <> [] /\ forallb p s = true.
Proof.
  unfold Plus. rewrite matches_cat. split.
  - intros (s1 & s2 & -> & H1 & H2). apply matches_class in H1.
    destruct H1 as (c & -> & Hc). apply matches_star_class in H2.
    simpl. rewrite Hc, H2. split; [discriminate | reflexivity].
  - intros [Hne H]. destruct s as [|c s]; [contradiction|].
    simpl in H. apply andb_true_iff in H. destruct H as [Hc Hs].
    exists [c], s. repeat split; auto.
    + constructor; assumption.
    + apply matches_star_class; assumption.
Qed.

(** ** Whitespace *)

Lemma lstrip_app_space ws s :
  forallb Py_UNICODE_ISSPACE ws = true -> lstrip (ws ++ s) = lstrip s.
Proof.
  induction ws as [|c ws IH]; simpl; intros H; auto.
  apply andb_true_iff in H. destruct H as [Hc Hws]. rewrite Hc. auto.
Qed.

Lemma lstrip_split s :
  exists ws, s = ws ++ lstrip s /\ forallb Py_UNICODE_ISSPACE ws = true.
Proof.
  induction s as [|c s (ws & E & H)]; simpl.
  - exists []. auto.
  - destruct (Py_UNICODE_ISSPACE c) eqn:Hc.
    + exists (c :: ws). simpl. rewrite Hc, H, <- E. auto.
    + exists []. auto.
Qed.

Lemma lstrip_head s c s' : lstrip s = c :: s' -> Py_UNICODE_ISSPACE c = false.
Proof.
  induction s as [|d s IH]; simpl; intros H; [discriminate|].
  destruct (Py_UNICODE_ISSPACE d) eqn:Hd; auto. congruence.
Qed.

Lemma lstrip_nil s : lstrip s = [] <-> forallb Py_UNICODE_ISSPACE s = true.
Proof.
  induction s as [|c s IH]; simpl; [tauto|].
  destruct (Py_UNICODE_ISSPACE c); simpl; auto. split; discriminate.
Qed.

Lemma forallb_rev (p : char -> bool) s : forallb p (rev s) = forallb p s.
Proof.
  induction s as [|c s IH]; simpl; auto.
  rewrite forallb_app, IH. simpl. rewrite andb_true_r. apply andb_comm.
Qed.

Lemma forallb_lstrip s :
  forallb Py_UNICODE_ISSPACE (lstrip s) = forallb Py_UNICODE_ISSPACE s.
Proof.
  induction s as [|c s IH]; simpl; auto.
  destruct (Py_UNICODE_ISSPACE c) eqn:Hc; simpl; auto. rewrite Hc. reflexivity.
Qed.

(** A line is blank when all its characters are whitespace. *)
Lemma is_blank_spec s :
  is_blank s = true <-> forallb Py_UNICODE_ISSPACE s = true.
Proof.
  unfold is_blank, str_eqb, strip, rstrip.
  destruct (list_eq_dec N.eq_dec _ _) as [E | NE].
  - split; auto. intros _.
    apply (f_equal (@rev char)) in E. rewrite rev_involutive in E. simpl in E.
    apply lstrip_nil in E. rewrite forallb_rev, forallb_lstrip in E. exact E.
  - split; [discriminate|]. intros H. exfalso. apply NE.
    rewrite <- forallb_lstrip, <- forallb_rev in H. apply lstrip_nil in H.
    rewrite H. reflexivity.
Qed.

Lemma is_blank_false s :
  is_blank s = false <-> exists c, In c s /\ Py_UNICODE_ISSPACE c = false.
Proof.
  rewrite <- not_true_iff_false, is_blank_spec, forallb_forall. split.
  - intros H. induction s as [|c s IH].
    + exfalso. apply H. intros x [].
    + destruct (Py_UNICODE_ISSPACE c) eqn:Hc.
      * destruct IH as (d & Hd & Hs).
        { intros H'. apply H. intros x [<- | Hx]; auto. }
        exists d. simpl. auto.
      * exists c. simpl. auto.
  - intros (c & Hc & Hs) H. rewrite (H c Hc) in Hs. discriminate.
Qed.

(** ** What the two patterns accept *)

Lemma one_of_In cs c : one_of cs c = true <-> In c cs.
Proof.
  unfold one_of. rewrite existsb_exists. split.
  - intros (x & Hx & E). apply N.eqb_eq in E. subst. assumption.
  - intros H. exists c. split; auto. apply N.eqb_refl.
Qed.

Lemma bullet_not_space c : In c (py "-*+") -> Py_UNICODE_ISSPACE c = false.
Proof.
  simpl. intros [<- | [<- | [<- | []]]]; reflexivity.
Qed.

Lemma re_match_bullet line :
  re_match bullet_re line = true <->
  exists ws c sp rest,
    line = ws ++ c :: sp :: rest /\
    forallb Py_UNICODE_ISSPACE ws = true /\
    In c (py "-*+") /\ Py_UNICODE_ISSPACE sp = true.
Proof.
  rewrite re_match_spec. unfold bullet_re. split.
  - intros (pre & post & -> & H).
    apply matches_cat in H. destruct H as (ws & s2 & -> & Hws & H).
    apply matches_cat in H. destruct H as (s3 & s4 & -> & H3 & H4).
    apply matches_class in H3. destruct H3 as (c & -> & Hc).
    apply matches_class in H4. destruct H4 as (sp & -> & Hsp).
    exists ws, c, sp, post.
    split; [rewrite <- app_assoc; reflexivity|].
    split; [apply matches_star_class; assumption|].
    split; [apply one_of_In; assumption | assumption].
  - intros (ws & c & sp & rest & -> & Hws & Hc & Hsp).
    exists (ws ++ [c] ++ [sp]), rest. split.
    + rewrite <- !app_assoc. reflexivity.
    + constructor; [apply matches_star_class; assumption|].
      constructor; constructor; auto. apply one_of_In; assumption.
Qed.

Section NumberPattern.

Variable db : unicode_db.

Lemma re_match_number line :
  re_match (number_re db) line = true <->
  exists ws digits sp rest,
    line = ws ++ digits ++ py "." ++ sp :: rest /\
    forallb Py_UNICODE_ISSPACE ws = true /\
    digits <> [] /\ forallb (is_decimal db) digits = true /\
    Py_UNICODE_ISSPACE sp = true.
Proof.
  rewrite re_match_spec. unfold number_re. split.
  - intros (pre & post & -> & H).
    apply matches_cat in H. destruct H as (ws & s2 & -> & Hws & H).
    apply matches_cat in H. destruct H as (ds & s3 & -> & Hds & H).
    apply matches_cat in H. destruct H as (s4 & s5 & -> & H4 & H5).
    apply matches_class in H4. destruct H4 as (dot & -> & Hdot).
    apply matches_class in H5. destruct H5 as (sp & -> & Hsp).
    apply matches_plus_class in Hds. destruct Hds as [Hne Hds].
    apply one_of_In in Hdot. simpl in Hdot. destruct Hdot as [<- | []].
    exists ws, ds, sp, post.
    split; [rewrite <- !app_assoc; reflexivity|].
    split; [apply matches_star_class; assumption | auto].
  - intros (ws & ds & sp & rest & -> & Hws & Hne & Hds & Hsp).
    exists (ws ++ ds ++ py "." ++ [sp]), rest. split.
    + rewrite <- !app_assoc. reflexivity.
    + constructor; [apply matches_star_class; assumption|].
      constructor; [apply matches_plus_class; auto|].
      constructor; constructor; auto.
Qed.

Lemma is_list_item_spec line :
  is_list_item db line = true <-> spec_list_item db line.
Proof.
  unfold is_list_item, spec_list_item.
  rewrite orb_true_iff, re_match_bullet, re_match_number.
  assert (B : (exists ws c sp rest,
                 line = ws ++ c :: sp :: rest /\
                 forallb Py_UNICODE_ISSPACE ws = true /\
                 In c (py "-*+") /\ Py_UNICODE_ISSPACE sp = true) <->
              spec_bullet_item line).
  { split.
    + intros (ws & c & sp & rest & -> & Hws & Hc & Hsp).
      exists c, sp, rest. rewrite lstrip_app_space by assumption.
      cbn [lstrip]. rewrite (bullet_not_space _ Hc). auto.
    + intros (c & sp & rest & E & Hc & Hsp).
      destruct (lstrip_split line) as (ws & Hl & Hws).
      exists ws, c, sp, rest. rewrite <- E. auto. }
  assert (D : (exists ws digits sp rest,
                 line = ws ++ digits ++ py "." ++ sp :: rest /\
                 forallb Py_UNICODE_ISSPACE ws = true /\
                 digits <> [] /\ forallb (is_decimal db) digits = true /\
                 Py_UNICODE_ISSPACE sp = true) <->
              spec_number_item db line).
  { split.
    + intros (ws & ds & sp & rest & -> & Hws & Hne & Hds & Hsp).
      exists ds, sp, rest. rewrite lstrip_app_space by assumption.
      rewrite forallb_forall in Hds.
      split; [|split; [assumption|split; [apply Forall_forall; assumption|assumption]]].
      destruct ds as [|d ds]; [contradiction|]. cbn [app lstrip].
      rewrite (decimal_not_space db d) by (apply Hds; left; reflexivity).
      reflexivity.
    + intros (ds & sp & rest & E & Hne & Hds & Hsp).
      destruct (lstrip_split line) as (ws & Hl & Hws).
      exists ws, ds, sp, rest. rewrite <- E.
      split; [assumption|]. split; [assumption|]. split; [assumption|].
      split; [|assumption].
      apply forallb_forall. apply Forall_forall. assumption. }
  tauto.
Qed.

Lemma is_list_item_lstrip line :
  is_list_item db (lstrip line) = is_list_item db line.
Proof.
  apply eq_true_iff_eq. rewrite !is_list_item_spec.
  assert (E : lstrip (lstrip line) = lstrip line).
  { destruct (lstrip line) as [|c s] eqn:El; auto.
    simpl. rewrite (lstrip_head _ _ _ El). reflexivity. }
  unfold spec_list_item, spec_bullet_item, spec_number_item.
  rewrite E. tauto.
Qed.

Lemma is_list_item_indent indent line :
  forallb Py_UNICODE_ISSPACE indent = true ->
  is_list_item db (indent ++ line) = is_list_item db line.
Proof.
  intros H. rewrite <- is_list_item_lstrip, lstrip_app_space by assumption.
  apply is_list_item_lstrip.
Qed.

(** A list-item line is never blank, and a blank line never a list item. *)
Lemma list_item_not_blank line :
  is_list_item db line = true -> is_blank line = false.
Proof.
  intros H. apply is_list_item_spec in H. apply is_blank_false.
  destruct (lstrip_split line) as (ws & E & _).
  destruct H as [(c & sp & rest & El & _) | (ds & sp & rest & El & Hne & _)].
  - exists c. split; [|apply (lstrip_head _ _ _ El)].
    rewrite E, El. apply in_or_app. right. left. reflexivity.
  - destruct ds as [|d ds]; [contradiction|]. simpl in El.
    exists d. split; [|apply (lstrip_head _ _ _ El)].
    rewrite E, El. apply in_or_app. right. left. reflexivity.
Qed.

End NumberPattern.

(** The classification of a line depends on the table only through the
    characters of the line. *)
Lemma is_list_item_ext db1 db2 line :
  (forall c, In c line -> is_decimal db1 c = is_decimal db2 c) ->
  is_list_item db1 line = is_list_item db2 line.
Proof.
  assert (half : forall d1 d2,
    (forall c, In c line -> is_decimal d1 c = is_decimal d2 c) ->
    re_match (number_re d1) line = true -> re_match (number_re d2) line = true).
  { intros d1 d2 Hd H. apply re_match_number in H. apply re_match_number.
    destruct H as (ws & ds & sp & rest & E & Hws & Hne & Hds & Hsp).
    exists ws, ds, sp, rest. repeat split; auto.
    rewrite forallb_forall in *. intros c Hc. rewrite <- Hd; auto.
    rewrite E. apply in_or_app. right. apply in_or_app. left. assumption. }
  intros Hd. unfold is_list_item. f_equal.
  apply eq_true_iff_eq. split; apply half; auto.
  intros c Hc. symmetry. auto.
Qed.

Lemma is_list_item_ascii db line :
  forallb is_ascii line = true ->
  is_list_item db line = is_list_item ascii_db line.
Proof.
  intros H. apply is_list_item_ext. intros c Hc.
  rewrite forallb_forall in H. apply H in Hc. apply N.ltb_lt in Hc.
  rewrite (decimal_ascii db c Hc). reflexivity.
Qed.

(** ** The loop *)

Section LoopFacts.

Variable db : unicode_db.

Lemma is_list_item_nil : is_list_item db [] = false.
Proof. reflexivity. Qed.

Lemma blank_not_list_item line :
  is_blank line = true -> is_list_item db line = false.
Proof.
  intros H. destruct (is_list_item db line) eqn:E; auto.
  apply list_item_not_blank in E. congruence.
Qed.

Lemma newline_blank : is_blank (py "\n") = true.
Proof. reflexivity. Qed.

Lemma loop_body_guard lines acc m i l :
  loop_body db lines (acc, m) (i, l) =
  if is_list_item db l &&
     ((0 <? i) && negb (is_blank (nth (i - 1) lines [])))
  then (acc ++ [py "\n"; l], true)
  else (acc ++ [l], m).
Proof.
  unfold loop_body.
  destruct (is_list_item db l); simpl; auto.
  destruct ((0 <? i) && negb (is_blank (nth (i - 1) lines []))); simpl; auto.
  rewrite <- app_assoc. reflexivity.
Qed.

Lemma prev_of_snoc pre l : prev_of (pre ++ [l]) = Some l.
Proof.
  unfold prev_of. rewrite length_app. simpl.
  replace (length pre + 1 - 1) with (length pre) by lia.
  rewrite nth_error_app2 by lia. rewrite Nat.sub_diag. reflexivity.
Qed.

Lemma prev_of_guard pre rest :
  (0 <? length pre) && negb (is_blank (nth (length pre - 1) (pre ++ rest) [])) =
  match prev_of pre with
  | Some p => negb (is_blank p)
  | None => false
  end.
Proof.
  destruct pre as [|a pre'] using rev_ind; [reflexivity|].
  rewrite prev_of_snoc, length_app. simpl.
  replace (length pre' + 1 - 1) with (length pre') by lia.
  rewrite <- app_assoc. simpl. rewrite nth_middle.
  destruct (length pre' + 1) eqn:E; [lia|]. reflexivity.
Qed.

Lemma nth_after pre l rest : nth (length pre) (pre ++ l :: rest) ([] : str) = l.
Proof. apply nth_middle. Qed.

(** The loop of the script is [scan]. *)
Lemma fold_scan suf : forall pre acc m,
  fold_left (loop_body db (pre ++ suf))
            (combine (seq (length pre) (length suf)) suf) (acc, m) =
  (acc ++ fst (scan db (prev_of pre) suf),
   m || snd (scan db (prev_of pre) suf)).
Proof.
  induction suf as [|l suf IH]; intros pre acc m.
  - simpl. rewrite app_nil_r, orb_false_r. reflexivity.
  - cbn [length seq combine fold_left].
    rewrite loop_body_guard, prev_of_guard.
    assert (E : pre ++ l :: suf = (pre ++ [l]) ++ suf)
      by (rewrite <- app_assoc; reflexivity).
    assert (L : S (length pre) = length (pre ++ [l]))
      by (rewrite length_app; simpl; lia).
    cbn [scan]. fold (guard db (prev_of pre) l).
    specialize (IH (pre ++ [l])). rewrite prev_of_snoc in IH.
    rewrite E, L.
    destruct (scan db (Some l) suf) as [out m'] eqn:Es.
    destruct (guard db (prev_of pre) l); rewrite IH; cbn [fst snd].
    + rewrite <- app_assoc, orb_true_r. reflexivity.
    + rewrite <- app_assoc. reflexivity.
Qed.

Lemma fix_lines_scan lines : fix_lines db lines = scan db None lines.
Proof.
  unfold fix_lines, enumerate.
  pose proof (fold_scan lines [] [] false) as H. simpl in H. rewrite H.
  change (prev_of []) with (@None str).
  destruct (scan db None lines); reflexivity.
Qed.

(** The loop appends one [block] per index. *)
Lemma scan_blocks suf : forall pre,
  scan db (prev_of pre) suf =
  (flat_map (block db (pre ++ suf)) (seq (length pre) (length suf)),
   existsb (inserts_before db (pre ++ suf)) (seq (length pre) (length suf))).
Proof.
  induction suf as [|l suf IH]; intros pre; [reflexivity|].
  cbn [length seq flat_map existsb scan].
  assert (E : pre ++ l :: suf = (pre ++ [l]) ++ suf)
    by (rewrite <- app_assoc; reflexivity).
  assert (L : S (length pre) = length (pre ++ [l]))
    by (rewrite length_app; simpl; lia).
  assert (G : inserts_before db (pre ++ l :: suf) (length pre) =
              guard db (prev_of pre) l).
  { unfold inserts_before, guard. rewrite nth_after, prev_of_guard. reflexivity. }
  unfold block at 1. rewrite G, nth_after.
  specialize (IH (pre ++ [l])). rewrite prev_of_snoc in IH.
  rewrite IH, <- E, <- L.
  destruct (guard db (prev_of pre) l); reflexivity.
Qed.

Lemma fix_lines_blocks lines :
  fix_lines db lines =
  (flat_map (block db lines) (seq 0 (length lines)),
   existsb (inserts_before db lines) (seq 0 (length lines))).
Proof.
  rewrite fix_lines_scan. apply (scan_blocks lines []).
Qed.

Lemma inserts_before_range lines i :
  inserts_before db lines i = true -> 0 < i < length lines.
Proof.
  unfold inserts_before. intros H.
  apply andb_true_iff in H. destruct H as [Hi H].
  apply andb_true_iff in H. destruct H as [H0 _].
  apply Nat.ltb_lt in H0. split; auto.
  destruct (Nat.lt_ge_cases i (length lines)) as [|Hge]; auto.
  rewrite (nth_overflow _ _ Hge), is_list_item_nil in Hi. discriminate.
Qed.

Lemma length_blocks lines i :
  length (flat_map (block db lines) (seq 0 i)) =
  i + length (filter (inserts_before db lines) (seq 0 i)).
Proof.
  induction i as [|i IH]; [reflexivity|].
  rewrite seq_S, flat_map_app, filter_app, !length_app, IH. simpl.
  unfold block. destruct (inserts_before db lines i); simpl; lia.
Qed.

Lemma new_pos_blocks lines i :
  new_pos db lines i =
  length (flat_map (block db lines) (seq 0 i)) +
  (if inserts_before db lines i then 1 else 0).
Proof.
  unfold new_pos. rewrite length_blocks, seq_S, filter_app, length_app. simpl.
  destruct (inserts_before db lines i); simpl; lia.
Qed.

Lemma blocks_split lines i :
  i < length lines ->
  exists rest,
    fst (fix_lines db lines) =
    flat_map (block db lines) (seq 0 i) ++ block db lines i ++ rest.
Proof.
  intros Hi. rewrite fix_lines_blocks. cbn [fst].
  replace (length lines) with (i + S (length lines - S i)) by lia.
  rewrite seq_app, flat_map_app. cbn [seq flat_map Nat.add].
  eexists. reflexivity.
Qed.

(** ** What the output looks like *)

Lemma scan_blank_before p ls :
  blank_before_items db p (fst (scan db (Some p) ls)).
Proof.
  revert p. induction ls as [|l ls IH]; intros p; [exact I|].
  cbn [scan]. specialize (IH l).
  destruct (scan db (Some l) ls) as [out m].
  destruct (guard db (Some p) l) eqn:G; cbn [fst blank_before_items] in *.
  - split; [|split; auto].
    + intros H. rewrite (blank_not_list_item _ newline_blank) in H. discriminate.
  - split; auto. intros Hl. unfold guard in G. rewrite Hl in G.
    simpl in G. apply negb_false_iff in G. exact G.
Qed.

Lemma scan_fixed p ls :
  blank_before_items db p ls -> scan db (Some p) ls = (ls, false).
Proof.
  revert p. induction ls as [|l ls IH]; intros p H; [reflexivity|].
  destruct H as [Hp Hls]. cbn [scan]. rewrite (IH _ Hls).
  unfold guard. destruct (is_list_item db l); [|reflexivity].
  rewrite Hp by reflexivity. reflexivity.
Qed.

Lemma scan_idempotent lines :
  scan db None (fst (scan db None lines)) = (fst (scan db None lines), false).
Proof.
  destruct lines as [|l ls]; [reflexivity|].
  cbn [scan]. pose proof (scan_blank_before l ls) as H.
  destruct (scan db (Some l) ls) as [out m].
  unfold guard at 1. rewrite andb_false_r. cbn [fst] in *.
  cbn [scan]. rewrite (scan_fixed _ _ H).
  unfold guard. rewrite andb_false_r. reflexivity.
Qed.

Lemma scan_unmodified ls : forall prev,
  snd (scan db prev ls) = false -> fst (scan db prev ls) = ls.
Proof.
  induction ls as [|l ls IH]; intros prev H; [reflexivity|].
  cbn [scan] in *. specialize (IH (Some l)).
  destruct (scan db (Some l) ls) as [out m].
  destruct (guard db prev l); cbn [fst snd] in *; [discriminate|].
  rewrite IH; auto.
Qed.

Lemma scan_modified_longer ls : forall prev,
  snd (scan db prev ls) = true -> length ls < length (fst (scan db prev ls)).
Proof.
  assert (le : forall ls prev, length ls <= length (fst (scan db prev ls))).
  { clear ls. induction ls as [|l ls IH]; intros prev; [simpl; lia|].
    cbn [scan]. specialize (IH (Some l)).
    destruct (scan db (Some l) ls) as [out m].
    destruct (guard db prev l); cbn [fst length] in *; lia. }
  induction ls as [|l ls IH]; intros prev H; [discriminate|].
  cbn [scan] in *. specialize (IH (Some l)). specialize (le ls (Some l)).
  destruct (scan db (Some l) ls) as [out m].
  destruct (guard db prev l); cbn [fst snd length] in *; [lia|].
  apply IH in H. lia.
Qed.

Lemma blank_before_nth p ls :
  blank_before_items db p ls ->
  forall j, is_list_item db (nth j ls []) = true ->
            is_blank (nth j (p :: ls) []) = true.
Proof.
  revert p. induction ls as [|l ls IH]; intros p H j Hj.
  - destruct j; simpl in Hj; rewrite is_list_item_nil in Hj; discriminate.
  - destruct H as [Hp Hls]. destruct j as [|j]; simpl in *.
    + auto.
    + apply (IH l Hls j Hj).
Qed.

End LoopFacts.

(** ** The line transformation *)

Section LineTheorems.

Variable db : unicode_db.

Lemma inserts_before_spec lines i :
  inserts_before db lines i = true <->
  0 < i /\ is_list_item db (nth i lines []) = true /\
  is_blank (nth (i - 1) lines []) = false.
Proof.
  unfold inserts_before.
  rewrite !andb_true_iff, Nat.ltb_lt, negb_true_iff. tauto.
Qed.

Lemma new_pos_step lines i :
  0 < i ->
  new_pos db lines i =
  new_pos db lines (i - 1) + 1 + (if inserts_before db lines i then 1 else 0).
Proof.
  intros Hi. unfold new_pos.
  replace (S (i - 1)) with i by lia.
  rewrite (seq_S i), filter_app, length_app. simpl.
  destruct (inserts_before db lines i); simpl; lia.
Qed.

Lemma new_pos_0 lines : new_pos db lines 0 = 0.
Proof.
  unfold new_pos, inserts_before. simpl. rewrite andb_false_r. reflexivity.
Qed.

Lemma output_blank_before lines j :
  0 < j ->
  is_list_item db (nth j (fst (fix_lines db lines)) []) = true ->
  is_blank (nth (j - 1) (fst (fix_lines db lines)) []) = true.
Proof.
  rewrite fix_lines_scan. destruct lines as [|l ls].
  - destruct j; simpl; rewrite is_list_item_nil; discriminate.
  - cbn [scan]. pose proof (scan_blank_before db l ls) as H.
    destruct (scan db (Some l) ls) as [out m].
    unfold guard. rewrite andb_false_r. cbn [fst] in *.
    intros Hj. destruct j as [|j]; [lia|]. simpl.
    rewrite Nat.sub_0_r. apply (blank_before_nth db l out H j).
Qed.

(** C1.  Insertion correctness: input line [i] is found unchanged at
    [new_pos i] of the output, so the original lines keep their order;
    when line [i > 0] is a list item after a non-blank line, the output
    has the inserted blank line at [new_pos i - 1] and the previous
    input line right before it, at [new_pos i - 2], and otherwise
    nothing comes between the two; the output holds nothing else; and
    in the output every list item but a first line follows a blank
    line. *)
Theorem insertion_correctness lines :
  let out := fst (fix_lines db lines) in
  (forall i, i < length lines ->
     nth_error out (new_pos db lines i) = nth_error lines i) /\
  new_pos db lines 0 = 0 /\
  (forall i, 0 < i ->
     is_list_item db (nth i lines []) = true ->
     is_blank (nth (i - 1) lines []) = false ->
     nth_error out (new_pos db lines i - 1) = Some (py "\n") /\
     is_blank (py "\n") = true /\
     new_pos db lines i = new_pos db lines (i - 1) + 2) /\
  (forall i, 0 < i ->
     inserts_before db lines i = false ->
     new_pos db lines i = new_pos db lines (i - 1) + 1) /\
  length out =
    length lines +
    length (filter (inserts_before db lines) (seq 0 (length lines))) /\
  (forall j, 0 < j ->
     is_list_item db (nth j out []) = true ->
     is_blank (nth (j - 1) out []) = true).
Proof.
  cbv zeta. repeat split.
  - intros i Hi. destruct (blocks_split db lines i Hi) as (rest & ->).
    rewrite new_pos_blocks, nth_error_app2 by lia.
    replace (_ + _ - _) with (if inserts_before db lines i then 1 else 0) by lia.
    rewrite (nth_error_nth' lines [] Hi). unfold block.
    destruct (inserts_before db lines i); reflexivity.
  - apply new_pos_0.
  - assert (Hins : inserts_before db lines i = true)
      by (apply inserts_before_spec; auto).
    destruct (inserts_before_range db lines i Hins) as [_ Hi].
    destruct (blocks_split db lines i Hi) as (rest & ->).
    rewrite new_pos_blocks, Hins.
    replace (_ + 1 - 1) with (length (flat_map (block db lines) (seq 0 i))) by lia.
    rewrite nth_error_app2, Nat.sub_diag by lia.
    unfold block. rewrite Hins. reflexivity.
  - assert (Hins : inserts_before db lines i = true)
      by (apply inserts_before_spec; auto).
    rewrite (new_pos_step lines i) by assumption. rewrite Hins. lia.
  - intros i Hi Hins. rewrite (new_pos_step lines i) by assumption.
    rewrite Hins. lia.
  - rewrite fix_lines_blocks. apply length_blocks.
  - intros j. apply output_blank_before.
Qed.

(** Line-level idempotence and its companions. *)
Lemma fix_lines_idempotent lines :
  fix_lines db (fst (fix_lines db lines)) = (fst (fix_lines db lines), false).
Proof. rewrite !fix_lines_scan. apply scan_idempotent. Qed.

Lemma fix_lines_unmodified lines :
  snd (fix_lines db lines) = false -> fst (fix_lines db lines) = lines.
Proof. rewrite fix_lines_scan. apply scan_unmodified. Qed.

Lemma fix_lines_modified_longer lines :
  snd (fix_lines db lines) = true ->
  length lines < length (fst (fix_lines db lines)).
Proof. rewrite fix_lines_scan. apply scan_modified_longer. Qed.

Lemma modified_iff lines :
  snd (fix_lines db lines) = true <->
  exists i, inserts_before db lines i = true.
Proof.
  rewrite fix_lines_blocks. cbn [snd]. rewrite existsb_exists. split.
  - intros (i & _ & H). eauto.
  - intros (i & H). exists i. split; auto.
    apply in_seq. pose proof (inserts_before_range db lines i H). lia.
Qed.

Lemma unmodified_iff lines :
  snd (fix_lines db lines) = false <->
  forall i, inserts_before db lines i = false.
Proof.
  rewrite <- not_true_iff_false, modified_iff. split.
  - intros H i. apply not_true_iff_false. intros Hi. apply H. eauto.
  - intros H (i & Hi). rewrite H in Hi. discriminate.
Qed.

(** The loop over a list cut in two. *)
Lemma scan_app pre suf : forall prev,
  scan db prev (pre ++ suf) =
  let prev' := match prev_of pre with Some p => Some p | None => prev end in
  (fst (scan db prev pre) ++ fst (scan db prev' suf),
   snd (scan db prev pre) || snd (scan db prev' suf)).
Proof.
  cbv zeta. induction pre as [|l pre IH]; intros prev.
  - simpl. destruct (scan db prev suf); reflexivity.
  - cbn [app scan]. specialize (IH (Some l)).
    assert (P : match prev_of (l :: pre) with Some p => Some p | None => prev end =
                match prev_of pre with Some p => Some p | None => Some l end).
    { destruct pre as [|a pre'] using rev_ind; [reflexivity|].
      change (l :: pre' ++ [a]) with ((l :: pre') ++ [a]).
      rewrite !prev_of_snoc. reflexivity. }
    rewrite P, IH.
    destruct (scan db (Some l) pre) as [o2 m2]. cbn [fst snd].
    destruct (guard db prev l); reflexivity.
Qed.

(** Any non-blank line before a list item gets a blank line after it. *)
Lemma insertion_between pre a b post :
  is_blank a = false -> is_list_item db b = true ->
  exists out1 out2,
    fix_lines db (pre ++ a :: b :: post) =
    (out1 ++ a :: py "\n" :: b :: out2, true).
Proof.
  intros Ha Hb. rewrite fix_lines_scan.
  change (a :: b :: post) with ([a] ++ b :: post).
  rewrite app_assoc, scan_app, prev_of_snoc, scan_app. cbv zeta.
  assert (G : guard db (Some a) b = true)
    by (unfold guard; rewrite Hb, Ha; reflexivity).
  cbn [scan]. rewrite G.
  destruct (scan db (Some b) post) as [o m]. cbn [fst snd].
  rewrite orb_true_r.
  exists (fst (scan db None pre) ++
          (if guard db (match prev_of pre with Some p => Some p | None => None end) a
           then [py "\n"] else [])), o.
  f_equal. rewrite <- !app_assoc.
  destruct (guard db _ a); reflexivity.
Qed.

(** With no list item after the first line nothing is inserted. *)
Lemma scan_no_items ls : forall prev,
  (forall l, In l ls -> is_list_item db l = false) ->
  scan db prev ls = (ls, false).
Proof.
  induction ls as [|l ls IH]; intros prev H; [reflexivity|].
  cbn [scan]. rewrite IH by (intros x Hx; apply H; right; assumption).
  unfold guard. rewrite (H l) by (left; reflexivity). reflexivity.
Qed.

Lemma first_line_only lines :
  (forall i, 0 < i -> is_list_item db (nth i lines []) = false) ->
  fix_lines db lines = (lines, false).
Proof.
  intros H. rewrite fix_lines_scan. destruct lines as [|l ls]; [reflexivity|].
  cbn [scan]. rewrite scan_no_items.
  - unfold guard. rewrite andb_false_r. reflexivity.
  - intros x Hx. destruct (In_nth _ _ [] Hx) as (n & Hn & <-).
    apply (H (S n)). lia.
Qed.

End LineTheorems.

(** ** The text layer *)

Lemma list_ind2 (A : Type) (P : list A -> Prop) :
  P [] -> (forall a, P [a]) ->
  (forall a b l, P l -> P (b :: l) -> P (a :: b :: l)) ->
  forall l, P l.
Proof.
  intros H0 H1 H2 l.
  assert (both : P l /\ forall a, P (a :: l)).
  { induction l as [|b l [IH1 IH2]]; split; auto. }
  apply both.
Qed.

Lemma universal_newlines_no_cr s : ~ In CR (universal_newlines s).
Proof.
  induction s as [|a|a b l IH1 IH2] using list_ind2.
  - intros [].
  - simpl. destruct (N.eqb_spec a CR); simpl; intros [H | []]; try discriminate.
    congruence.
  - cbn [universal_newlines] in *.
    destruct (N.eqb_spec a CR) as [->|Ha].
    + destruct (N.eqb_spec b LF); intros [H | H]; try discriminate; contradiction.
    + intros [H | H]; [congruence | contradiction].
Qed.

Lemma universal_newlines_id s : ~ In CR s -> universal_newlines s = s.
Proof.
  induction s as [|a s IH]; intros H; [reflexivity|].
  cbn [universal_newlines].
  destruct (N.eqb_spec a CR) as [->|Ha]; [exfalso; apply H; left; reflexivity|].
  rewrite IH; auto. intros H'. apply H. right. assumption.
Qed.

Lemma write_newlines_posix s : write_newlines posix s = s.
Proof.
  unfold write_newlines. induction s as [|a s IH]; [reflexivity|].
  cbn [flat_map]. rewrite IH.
  destruct (N.eqb_spec a LF) as [->|]; reflexivity.
Qed.

(** Reading back what was written gives the text that was written. *)
Lemma read_write_newlines os s :
  ~ In CR s -> universal_newlines (write_newlines os s) = s.
Proof.
  destruct os; [rewrite write_newlines_posix; apply universal_newlines_id|].
  unfold write_newlines. induction s as [|a s IH]; intros H; [reflexivity|].
  assert (Hs : ~ In CR s) by (intros H'; apply H; right; assumption).
  assert (Ha : a <> CR) by (intros ->; apply H; left; reflexivity).
  cbn [flat_map]. destruct (N.eqb_spec a LF) as [->|Hlf].
  - change (os_linesep nt ++ flat_map
              (fun c => if (c =? LF)%N then os_linesep nt else [c]) s)
      with (CR :: LF :: flat_map
              (fun c => if (c =? LF)%N then os_linesep nt else [c]) s).
    cbn [universal_newlines]. rewrite !N.eqb_refl, IH by assumption. reflexivity.
  - cbn [app universal_newlines].
    destruct (N.eqb_spec a CR); [contradiction|]. rewrite IH by assumption.
    reflexivity.
Qed.

Lemma concat_split_lines s : concat (split_lines s) = s.
Proof.
  induction s as [|c s IH]; [reflexivity|]. cbn [split_lines].
  destruct (c =? LF)%N.
  - cbn [concat app]. rewrite IH. reflexivity.
  - destruct (split_lines s) as [|l ls]; cbn [concat app] in *.
    + rewrite <- IH. reflexivity.
    + rewrite <- IH. reflexivity.
Qed.

Lemma split_lines_line_list s : line_list (split_lines s).
Proof.
  induction s as [|c s IH]; [constructor|]. cbn [split_lines].
  destruct (N.eqb_spec c LF) as [->|Hc].
  - apply (line_list_cons []); auto.
  - destruct (split_lines s) as [|l ls].
    + apply line_list_last; [discriminate|]. intros [H | []]. congruence.
    + inversion IH as [|l' Hne Hl|body ls' Hb Hls]; subst.
      * apply line_list_last; [discriminate|].
        intros [H | H]; [congruence | contradiction].
      * apply (line_list_cons (c :: body)); auto.
        intros [H | H]; [congruence | contradiction].
Qed.

Lemma split_lines_no_lf l :
  l <> [] -> ~ In LF l -> split_lines l = [l].
Proof.
  induction l as [|c l IH]; intros Hne H; [contradiction|].
  cbn [split_lines].
  destruct (N.eqb_spec c LF) as [->|Hc]; [exfalso; apply H; left; reflexivity|].
  destruct l as [|d l]; [reflexivity|].
  rewrite IH; [reflexivity | discriminate |].
  intros H'. apply H. right. assumption.
Qed.

Lemma split_lines_body body rest :
  ~ In LF body ->
  split_lines (body ++ LF :: rest) = (body ++ [LF]) :: split_lines rest.
Proof.
  induction body as [|c body IH]; intros H.
  - cbn [app split_lines]. rewrite N.eqb_refl. reflexivity.
  - cbn [app split_lines].
    destruct (N.eqb_spec c LF) as [->|Hc]; [exfalso; apply H; left; reflexivity|].
    rewrite IH; [reflexivity|]. intros H'. apply H. right. assumption.
Qed.

(** Joining the lines [readlines()] gave and splitting again loses
    nothing. *)
Lemma split_lines_concat ls : line_list ls -> split_lines (concat ls) = ls.
Proof.
  induction 1 as [|l Hne Hl|body ls Hb Hls IH].
  - reflexivity.
  - cbn [concat]. rewrite app_nil_r. apply split_lines_no_lf; assumption.
  - cbn [concat]. rewrite <- app_assoc. cbn [app].
    rewrite split_lines_body, IH by assumption. reflexivity.
Qed.

Section TextAndLoop.

Variable db : unicode_db.

Lemma scan_line_list ls :
  line_list ls -> forall prev, line_list (fst (scan db prev ls)).
Proof.
  induction 1 as [|l Hne Hl|body ls Hb Hls IH]; intros prev.
  - constructor.
  - cbn [scan]. destruct (guard db prev l); cbn [fst].
    + apply (line_list_cons []); auto. apply line_list_last; assumption.
    + apply line_list_last; assumption.
  - cbn [scan].
    match goal with
    | |- context [scan db ?p ls] =>
        specialize (IH p); destruct (scan db p ls) as [out m]
    end.
    destruct (guard db prev (body ++ [LF])); cbn [fst] in *.
    + apply (line_list_cons []); auto. apply line_list_cons; assumption.
    + apply line_list_cons; assumption.
Qed.

Lemma scan_chars ls : forall prev c,
  In c (concat (fst (scan db prev ls))) -> c = LF \/ In c (concat ls).
Proof.
  induction ls as [|l ls IH]; intros prev c; [intros []|].
  cbn [scan]. specialize (IH (Some l) c).
  destruct (scan db (Some l) ls) as [out m].
  assert (N : In c (py "\n") -> c = LF) by (intros [H | []]; congruence).
  destruct (guard db prev l); cbn [fst concat] in *;
    rewrite ?in_app_iff; tauto.
Qed.

(** What [fix_lines] returns for the lines of a file can be written and
    read back: the same lines come out, and a second pass leaves them. *)
Lemma reread_fixed os text :
  let lines := split_lines (universal_newlines text) in
  let out := fst (fix_lines db lines) in
  split_lines (universal_newlines (write_newlines os (concat out))) = out /\
  fix_lines db out = (out, false).
Proof.
  cbv zeta. split; [|apply fix_lines_idempotent].
  rewrite read_write_newlines.
  - apply split_lines_concat. rewrite fix_lines_scan.
    apply scan_line_list, split_lines_line_list.
  - rewrite fix_lines_scan. intros H. apply scan_chars in H.
    destruct H as [H | H]; [discriminate|].
    rewrite concat_split_lines in H.
    apply (universal_newlines_no_cr _ H).
Qed.

End TextAndLoop.

(** ** The file system *)

Lemma str_eqb_eq a b : str_eqb a b = true <-> a = b.
Proof.
  unfold str_eqb. destruct (list_eq_dec N.eq_dec a b); split; auto; discriminate.
Qed.

Lemma str_eqb_refl a : str_eqb a a = true.
Proof. apply str_eqb_eq. reflexivity. Qed.

Lemma path_eq_dec (p q : path) : {p = q} + {p <> q}.
Proof. apply list_eq_dec, list_eq_dec, N.eq_dec. Qed.

Lemma update_entry_inv name f es es' :
  update_entry name f es = Some es' ->
  exists n n',
    assoc name es = Some n /\ f n = Some n' /\ assoc name es' = Some n' /\
    (forall k, k <> name -> assoc k es' = assoc k es).
Proof.
  revert es'. induction es as [|[k n] es IH]; intros es' H; [discriminate|].
  cbn [update_entry assoc] in *. destruct (str_eqb k name) eqn:E.
  - apply str_eqb_eq in E. subst k.
    destruct (f n) as [n'|] eqn:F; [|discriminate]. injection H as <-.
    exists n, n'. cbn [assoc]. rewrite str_eqb_refl. repeat split; auto.
    intros k Hk. destruct (str_eqb name k) eqn:E'; auto.
    apply str_eqb_eq in E'. congruence.
  - destruct (update_entry name f es) as [es1|]; [|discriminate].
    injection H as <-. destruct (IH es1 eq_refl) as (n0 & n' & A & F & A' & O).
    exists n0, n'. cbn [assoc]. rewrite E. repeat split; auto.
    intros k' Hk. destruct (str_eqb k k'); auto.
Qed.

Lemma update_entry_some name f es n n' :
  assoc name es = Some n -> f n = Some n' ->
  exists es', update_entry name f es = Some es'.
Proof.
  induction es as [|[k m] es IH]; intros A F; [discriminate|].
  cbn [update_entry assoc] in *. destruct (str_eqb k name).
  - injection A as ->. rewrite F. eexists. reflexivity.
  - destruct (IH A F) as (es' & ->). eexists. reflexivity.
Qed.

Lemma store_some p : forall fs c0 c,
  read_file p fs = Some c0 -> exists fs', store p c fs = Some fs'.
Proof.
  unfold read_file. induction p as [|name p IH]; intros fs c0 c H.
  - cbn [lookup] in H. destruct fs; [|discriminate]. eexists. reflexivity.
  - cbn [lookup] in H. destruct fs as [|es]; [discriminate|].
    destruct (assoc name es) as [n|] eqn:A; [|discriminate].
    destruct (IH n c0 c H) as (n' & S).
    destruct (update_entry_some name (store p c) es n n' A S) as (es' & U).
    cbn [store]. rewrite U. eexists. reflexivity.
Qed.

Lemma store_read_same p : forall fs fs' c,
  store p c fs = Some fs' -> read_file p fs' = Some c.
Proof.
  unfold read_file. induction p as [|name p IH]; intros fs fs' c H.
  - destruct fs; [|discriminate]. injection H as <-. reflexivity.
  - destruct fs as [|es]; [discriminate|]. cbn [store] in H.
    destruct (update_entry name (store p c) es) as [es'|] eqn:U; [|discriminate].
    injection H as <-.
    destruct (update_entry_inv _ _ _ _ U) as (n & n' & A & S & A' & O).
    cbn [lookup]. rewrite A'. apply (IH n n' c S).
Qed.

Lemma store_read_other p : forall fs fs' c q,
  store p c fs = Some fs' -> q <> p -> read_file q fs' = read_file q fs.
Proof.
  unfold read_file. induction p as [|name p IH]; intros fs fs' c q H Hq.
  - destruct fs; [|discriminate]. injection H as <-.
    destruct q; [contradiction | reflexivity].
  - destruct fs as [|es]; [discriminate|]. cbn [store] in H.
    destruct (update_entry name (store p c) es) as [es'|] eqn:U; [|discriminate].
    injection H as <-.
    destruct (update_entry_inv _ _ _ _ U) as (n & n' & A & S & A' & O).
    destruct q as [|k q]; [reflexivity|]. cbn [lookup].
    destruct (list_eq_dec N.eq_dec k name) as [->|Hk].
    + rewrite A, A'. apply (IH n n' c q S). congruence.
    + rewrite (O k Hk). reflexivity.
Qed.

Lemma store_is_dir p c fs fs' : store p c fs = Some fs' -> is_dir fs' = is_dir fs.
Proof.
  destruct p, fs; cbn [store]; try discriminate.
  - intros H. injection H as <-. reflexivity.
  - destruct (update_entry _ _ _); [|discriminate].
    intros H. injection H as <-. reflexivity.
Qed.

(** ** [os.walk] does not depend on what the files hold *)

Lemma walk_node_dir top es :
  walk_node top (Dir es) =
  (top, dirnames es, filenames es) :: walk_entries top es.
Proof.
  cbn [walk_node]. f_equal. unfold walk_entries.
  induction es as [|[name n] es IH]; [reflexivity|].
  cbn [flat_map fst snd]. rewrite <- IH. reflexivity.
Qed.

Lemma store_walk p : forall fs fs' c top,
  store p c fs = Some fs' -> walk_node top fs' = walk_node top fs.
Proof.
  induction p as [|name p IH]; intros fs fs' c top H.
  - destruct fs; [|discriminate]. injection H as <-. reflexivity.
  - destruct fs as [|es]; [discriminate|]. cbn [store] in H.
    destruct (update_entry name (store p c) es) as [es'|] eqn:U; [|discriminate].
    injection H as <-. rewrite !walk_node_dir.
    assert (K : dirnames es' = dirnames es /\ filenames es' = filenames es /\
                walk_entries top es' = walk_entries top es).
    { clear -U IH. revert es' U.
      induction es as [|[k n] es IHes]; intros es' U; [discriminate|].
      cbn [update_entry] in U. destruct (str_eqb k name).
      - destruct (store p c n) as [n'|] eqn:S; [|discriminate].
        injection U as <-.
        unfold dirnames, filenames, walk_entries.
        cbn [filter flat_map fst snd map].
        rewrite (store_is_dir _ _ _ _ S).
        destruct (is_dir n); cbn [negb map fst snd];
          rewrite ?(IH _ _ _ _ S); auto.
      - destruct (update_entry name (store p c) es) as [es1|]; [|discriminate].
        injection U as <-. destruct (IHes es1 eq_refl) as (D & F & W).
        unfold dirnames, filenames, walk_entries in *.
        cbn [filter flat_map fst snd map].
        rewrite W. destruct (is_dir n); cbn [negb map]; rewrite ?D, ?F; auto. }
    destruct K as (-> & -> & ->). reflexivity.
Qed.

Lemma store_lookup_walk p : forall q fs fs' c top,
  store p c fs = Some fs' ->
  option_map (walk_node top) (lookup q fs') =
  option_map (walk_node top) (lookup q fs).
Proof.
  induction p as [|name p IH]; intros q fs fs' c top H.
  - destruct fs; [|discriminate]. injection H as <-.
    destruct q; reflexivity.
  - destruct q as [|k q].
    { cbn [lookup option_map]. f_equal. apply (store_walk _ _ _ _ _ H). }
    destruct fs as [|es]; [discriminate|]. cbn [store] in H.
    destruct (update_entry name (store p c) es) as [es'|] eqn:U; [|discriminate].
    injection H as <-.
    destruct (update_entry_inv _ _ _ _ U) as (n & n' & A & S & A' & O).
    cbn [lookup].
    destruct (list_eq_dec N.eq_dec k name) as [->|Hk].
    + rewrite A, A'. apply (IH q n n' c top S).
    + rewrite (O k Hk). reflexivity.
Qed.

Lemma store_walk_of p q fs fs' c :
  store p c fs = Some fs' -> walk_of q fs' = walk_of q fs.
Proof.
  intros H. pose proof (store_lookup_walk p q fs fs' c q H) as E.
  unfold walk_of.
  destruct (lookup q fs'), (lookup q fs); cbn [option_map] in E;
    congruence.
Qed.

(** ** One call of [fix_md032_in_file] *)

Section Calls.

Variable db : unicode_db.
Variable os : platform.

Lemma fix_md032_in_file_run p fs :
  fix_run db os p fs (fix_md032_in_file db os p fs).
Proof.
  unfold fix_md032_in_file, bind, open_readlines.
  destruct (lookup p fs) as [[[text|raw]|es]|] eqn:L.
  - assert (R : read_file p fs = Some (Utf8 text))
      by (unfold read_file; rewrite L; reflexivity).
    fold (lines_of text).
    destruct (fix_lines db (lines_of text)) as [out modified] eqn:F.
    destruct modified.
    + unfold open_writelines, print, ret.
      destruct (store_some p fs (Utf8 text)
                  (Utf8 (write_newlines os (concat out))) R) as (fs' & S).
      rewrite S. cbn. apply (fix_rewritten db os p fs text fs' R).
      * rewrite F. reflexivity.
      * rewrite F. exact S.
    + unfold ret. cbn. apply (fix_unchanged db os p fs text R).
      rewrite F. reflexivity.
  - apply (fix_undecodable db os p fs raw).
    unfold read_file. rewrite L. reflexivity.
  - apply fix_not_a_file. unfold read_file. rewrite L. reflexivity.
  - apply fix_not_a_file. unfold read_file. rewrite L. reflexivity.
Qed.

(** After a call that returned, the file needs no further insertion. *)
Lemma fix_settles p fs b fs' t :
  fix_md032_in_file db os p fs = (Ok b, fs', t) -> settled db p fs'.
Proof.
  intros E. pose proof (fix_md032_in_file_run p fs) as R. rewrite E in R.
  inversion R as [text Hr Hm|text fs1 Hr Hm Hs| |]; subst.
  - exists text. auto.
  - eexists. split; [apply (store_read_same _ _ _ _ Hs)|].
    unfold lines_of.
    destruct (reread_fixed db os text) as [E1 E2]. rewrite E1, E2. reflexivity.
Qed.

Lemma fix_frame p fs o fs' t q :
  fix_md032_in_file db os p fs = (o, fs', t) ->
  q <> p -> read_file q fs' = read_file q fs.
Proof.
  intros E Hq. pose proof (fix_md032_in_file_run p fs) as R. rewrite E in R.
  inversion R as [|text fs1 Hr Hm Hs| |]; subst; auto.
  apply (store_read_other _ _ _ _ _ Hs Hq).
Qed.

(** A call changes the contents of at most one regular file, so [os.walk]
    lists the same tree before and after: the generator can be run ahead
    of the loop body. *)
Lemma fix_walk_stable p fs o fs' t top :
  fix_md032_in_file db os p fs = (o, fs', t) ->
  walk_of top fs' = walk_of top fs.
Proof.
  intros E. pose proof (fix_md032_in_file_run p fs) as R. rewrite E in R.
  inversion R as [|text fs1 Hr Hm Hs| |]; subst; auto.
  apply (store_walk_of _ _ _ _ _ Hs).
Qed.

(** ** The two loops of the script *)

Lemma run_files_cons p ps fs :
  run_files db os (p :: ps) fs =
  match fix_md032_in_file db os p fs with
  | (Ok _, fs1, t1) =>
      let '(o, fs2, t2) := run_files db os ps fs1 in (o, fs2, t1 ++ t2)
  | (Raise e, fs1, t1) => (Raise e, fs1, t1)
  end.
Proof.
  unfold run_files. cbn [for_each]. unfold bind at 1 2.
  destruct (fix_md032_in_file db os p fs) as [[[b|e] fs1] t1]; [|reflexivity].
  unfold ret. rewrite app_nil_r. reflexivity.
Qed.

Lemma run_files_app ps1 : forall ps2 fs,
  run_files db os (ps1 ++ ps2) fs =
  match run_files db os ps1 fs with
  | (Ok _, fs1, t1) =>
      let '(o, fs2, t2) := run_files db os ps2 fs1 in (o, fs2, t1 ++ t2)
  | (Raise e, fs1, t1) => (Raise e, fs1, t1)
  end.
Proof.
  induction ps1 as [|p ps1 IH]; intros ps2 fs.
  - cbn [app]. unfold run_files at 2. cbn [for_each]. unfold ret.
    destruct (run_files db os ps2 fs) as [[o fs2] t2]. reflexivity.
  - cbn [app]. rewrite !run_files_cons.
    destruct (fix_md032_in_file db os p fs) as [[[b|e] fs1] t1]; [|reflexivity].
    rewrite IH.
    destruct (run_files db os ps1 fs1) as [[[[]|e] fs2] t2]; [|reflexivity].
    destruct (run_files db os ps2 fs2) as [[o fs3] t3].
    rewrite app_assoc. reflexivity.
Qed.

Lemma main_run_files fs :
  main db os fs = run_files db os (md_paths (walk_of [py "docs"] fs)) fs.
Proof.
  unfold main, bind at 1, os_walk, walk_of.
  set (inner := fun root file =>
    if endswith file (py ".md")
    then fix_md032_in_file db os (os_path_join root file) ;;; ret tt
    else ret tt).
  assert (files_loop : forall root files fs0,
    for_each files (inner root) fs0 =
    run_files db os
      (map (os_path_join root)
           (filter (fun file => endswith file (py ".md")) files)) fs0).
  { intros root files. induction files as [|file files IH]; intros fs0.
    - reflexivity.
    - cbn [for_each filter]. unfold inner at 1.
      destruct (endswith file (py ".md")).
      + cbn [map]. unfold run_files. cbn [for_each]. unfold bind at 1 3.
        destruct (bind (fix_md032_in_file db os (os_path_join root file))
                       (fun _ => ret tt) fs0) as [[[[]|e] fs1] t1]; [|reflexivity].
        fold (run_files db os
                (map (os_path_join root)
                     (filter (fun file => endswith file (py ".md")) files))).
        rewrite IH. reflexivity.
      + unfold bind, ret. rewrite IH.
        destruct (run_files db os _ fs0) as [[o fs1] t1]. reflexivity. }
  assert (triples_loop : forall triples fs0,
    for_each triples (fun '(root, _, files) => for_each files (inner root)) fs0 =
    run_files db os (md_paths triples) fs0).
  { induction triples as [|[[root dirs] files] triples IH]; intros fs0.
    - reflexivity.
    - cbn [for_each md_paths flat_map fst snd]. rewrite run_files_app.
      unfold bind. rewrite files_loop.
      destruct (run_files db os _ fs0) as [[[[]|e] fs1] t1]; [|reflexivity].
      rewrite IH. reflexivity. }
  destruct (lookup [py "docs"] fs) as [n|].
  - rewrite triples_loop.
    destruct (run_files db os _ fs) as [[o fs1] t1]. reflexivity.
  - reflexivity.
Qed.

End Calls.

(** ** A run over a list of files *)

Section Runs.

Variable db : unicode_db.
Variable os : platform.

Lemma fix_md032_in_file_cases p fs :
  (fix_md032_in_file db os p fs = (Ok false, fs, [EvRead p]) /\
   needs_fix db p fs = false /\ settled db p fs) \/
  (exists fs',
     fix_md032_in_file db os p fs =
       (Ok true, fs', [EvRead p; EvWrite p; EvPrint (fixed_message os p)]) /\
     needs_fix db p fs = true) \/
  (exists raw,
     fix_md032_in_file db os p fs = (Raise UnicodeDecodeError, fs, [EvRead p]) /\
     read_file p fs = Some (Undecodable raw)) \/
  (fix_md032_in_file db os p fs = (Raise OSError, fs, []) /\
   read_file p fs = None).
Proof.
  pose proof (fix_md032_in_file_run db os p fs) as R. unfold needs_fix.
  inversion R as [text Hr Hm|text fs' Hr Hm Hs|raw Hr|Hr].
  - left. rewrite Hr. split; [reflexivity|]. split; [assumption|].
    exists text. auto.
  - right; left. exists fs'. rewrite Hr. auto.
  - right; right; left. exists raw. auto.
  - right; right; right. auto.
Qed.

Ltac fix_cases p fs E :=
  destruct (fix_md032_in_file_cases p fs)
    as [(E & ?Hneed & ?Hset) | [(?fs' & E & ?Hneed) | [(?raw & E & ?Hraw) | (E & ?Hnone)]]];
  rewrite E.

Lemma reads_app t1 t2 : reads (t1 ++ t2) = reads t1 ++ reads t2.
Proof. apply flat_map_app. Qed.

Lemma writes_app t1 t2 : writes (t1 ++ t2) = writes t1 ++ writes t2.
Proof. apply flat_map_app. Qed.

Lemma prints_app t1 t2 : prints (t1 ++ t2) = prints t1 ++ prints t2.
Proof. apply flat_map_app. Qed.

(** Files that are not on the list keep their content. *)
Lemma run_files_frame ps : forall fs q,
  ~ In q ps ->
  read_file q (fs_of (run_files db os ps fs)) = read_file q fs.
Proof.
  induction ps as [|p ps IH]; intros fs q Hq; [reflexivity|].
  rewrite run_files_cons.
  assert (Hp : q <> p) by (intros ->; apply Hq; left; reflexivity).
  assert (Hps : ~ In q ps) by (intros H; apply Hq; right; assumption).
  fix_cases p fs E; try reflexivity.
  - specialize (IH fs q Hps).
    destruct (run_files db os ps fs) as [[o2 fs2] t2]. exact IH.
  - specialize (IH fs' q Hps).
    destruct (run_files db os ps fs') as [[o2 fs2] t2]. cbn [fs_of fst snd] in *.
    rewrite IH. apply (fix_frame db os p fs _ _ _ q E Hp).
Qed.

(** Only files on the list are opened. *)
Lemma run_files_touches ps : forall fs,
  incl (reads (trace_of (run_files db os ps fs))) ps /\
  incl (writes (trace_of (run_files db os ps fs))) ps.
Proof.
  induction ps as [|p ps IH]; intros fs.
  - split; intros x [].
  - rewrite run_files_cons.
    fix_cases p fs E.
    + destruct (IH fs) as [Hr Hw].
      destruct (run_files db os ps fs) as [[o2 fs2] t2]. cbn [trace_of snd] in *.
      rewrite reads_app, writes_app. cbn. split.
      * intros x [<- | Hx]; [left; reflexivity | right; auto].
      * intros x Hx; right; auto.
    + destruct (IH fs') as [Hr Hw].
      destruct (run_files db os ps fs') as [[o2 fs2] t2]. cbn [trace_of snd] in *.
      rewrite reads_app, writes_app. cbn. split.
      * intros x [<- | Hx]; [left; reflexivity | right; auto].
      * intros x [<- | Hx]; [left; reflexivity | right; auto].
    + cbn. split; [intros x [<- | []]; left; reflexivity | intros x []].
    + cbn. split; intros x [].
Qed.

(** Every rewrite is reported by one printed line, and nothing else is
    printed. *)
Lemma run_files_prints ps : forall fs,
  prints (trace_of (run_files db os ps fs)) =
  map (fixed_message os) (writes (trace_of (run_files db os ps fs))).
Proof.
  induction ps as [|p ps IH]; intros fs; [reflexivity|].
  rewrite run_files_cons.
  fix_cases p fs E; try reflexivity.
  - specialize (IH fs).
    destruct (run_files db os ps fs) as [[o2 fs2] t2]. cbn [trace_of snd] in *.
    rewrite prints_app, writes_app. cbn. exact IH.
  - specialize (IH fs').
    destruct (run_files db os ps fs') as [[o2 fs2] t2]. cbn [trace_of snd] in *.
    rewrite prints_app, writes_app. cbn. rewrite IH. reflexivity.
Qed.

(** The files rewritten by a run that completes are those that needed an
    insertion when the run began. *)
Lemma needs_fix_same p fs fs' :
  read_file p fs' = read_file p fs -> needs_fix db p fs' = needs_fix db p fs.
Proof. unfold needs_fix. intros ->. reflexivity. Qed.

Lemma run_files_writes ps : forall fs,
  NoDup ps ->
  result_of (run_files db os ps fs) = Ok tt ->
  writes (trace_of (run_files db os ps fs)) =
  filter (fun p => needs_fix db p fs) ps.
Proof.
  induction ps as [|p ps IH]; intros fs N H; [reflexivity|].
  inversion N as [|? ? Hp Hps]; subst.
  rewrite run_files_cons in *.
  destruct (fix_md032_in_file_cases p fs)
    as [(E & Hneed & _) | [(fs' & E & Hneed) | [(raw & E & _) | (E & _)]]];
    rewrite E in *; try discriminate.
  - specialize (IH fs Hps). cbn [filter]. rewrite Hneed.
    destruct (run_files db os ps fs) as [[o2 fs2] t2].
    cbn [trace_of result_of fst snd] in *. rewrite writes_app. cbn. auto.
  - specialize (IH fs' Hps). cbn [filter]. rewrite Hneed.
    destruct (run_files db os ps fs') as [[o2 fs2] t2].
    cbn [trace_of result_of fst snd] in *. rewrite writes_app. cbn.
    rewrite IH by assumption. f_equal. apply filter_ext_in.
    intros q Hq. apply needs_fix_same.
    apply (fix_frame db os p fs _ _ _ q E). intros ->. contradiction.
Qed.

(** An undecodable file stays as it is, whatever else is processed. *)
Lemma run_files_undecodable ps : forall fs p raw,
  read_file p fs = Some (Undecodable raw) ->
  read_file p (fs_of (run_files db os ps fs)) = Some (Undecodable raw).
Proof.
  induction ps as [|q ps IH]; intros fs p raw H; [exact H|].
  rewrite run_files_cons.
  fix_cases q fs E; try exact H.
  - specialize (IH fs p raw H).
    destruct (run_files db os ps fs) as [[o2 fs2] t2]. exact IH.
  - assert (Hq : p <> q).
    { intros ->. unfold needs_fix in Hneed. rewrite H in Hneed. discriminate. }
    specialize (IH fs' p raw).
    destruct (run_files db os ps fs') as [[o2 fs2] t2]. cbn [fs_of fst snd] in *.
    apply IH. rewrite (fix_frame db os q fs _ _ _ p E Hq). exact H.
Qed.

(** A settled file stays settled. *)
Lemma settled_call p fs :
  settled db p fs -> fix_md032_in_file db os p fs = (Ok false, fs, [EvRead p]).
Proof.
  intros (text & Hr & Hm).
  assert (N : needs_fix db p fs = false) by (unfold needs_fix; rewrite Hr; exact Hm).
  fix_cases p fs E; try congruence.
Qed.

Lemma run_files_settled ps : forall fs p,
  settled db p fs -> settled db p (fs_of (run_files db os ps fs)).
Proof.
  induction ps as [|q ps IH]; intros fs p H; [exact H|].
  rewrite run_files_cons.
  destruct (path_eq_dec p q) as [->|Hq].
  - rewrite (settled_call q fs H). specialize (IH fs q H).
    destruct (run_files db os ps fs) as [[o2 fs2] t2]. exact IH.
  - destruct (fix_md032_in_file db os q fs) as [[[b|e] fs1] t1] eqn:E.
    + assert (S1 : settled db p fs1).
      { destruct H as (text & Hr & Hm). exists text. split; auto.
        rewrite (fix_frame db os q fs _ _ _ p E Hq). exact Hr. }
      specialize (IH fs1 p S1).
      destruct (run_files db os ps fs1) as [[o2 fs2] t2]. exact IH.
    + cbn [fs_of fst snd].
      destruct H as (text & Hr & Hm). exists text. split; auto.
      rewrite (fix_frame db os q fs _ _ _ p E Hq). exact Hr.
Qed.

(** A second run over the same list changes nothing and reports nothing. *)
Lemma run_files_twice ps : forall fs,
  let r1 := run_files db os ps fs in
  let r2 := run_files db os ps (fs_of r1) in
  fs_of r2 = fs_of r1 /\ writes (trace_of r2) = [] /\ prints (trace_of r2) = [] /\
  result_of r2 = result_of r1.
Proof.
  cbv zeta. induction ps as [|p ps IH]; intros fs; [auto|].
  rewrite (run_files_cons db os p ps fs).
  destruct (fix_md032_in_file db os p fs) as [[[b|e] fs1] t1] eqn:E.
  - specialize (IH fs1).
    pose proof (fix_settles db os p fs b fs1 t1 E) as S1.
    pose proof (run_files_settled ps fs1 p S1) as S2.
    destruct (run_files db os ps fs1) as [[o2 fs2] t2].
    cbn [fs_of result_of trace_of fst snd] in *.
    rewrite run_files_cons, (settled_call p fs2 S2).
    destruct (run_files db os ps fs2) as [[o3 fs3] t3].
    cbn [fs_of result_of trace_of fst snd] in *.
    rewrite writes_app, prints_app. cbn. exact IH.
  - cbn [fs_of result_of trace_of fst snd].
    rewrite run_files_cons.
    destruct (fix_md032_in_file_cases p fs)
      as [(E' & _ & _) | [(fs' & E' & _) | [(raw & E' & _) | (E' & _)]]];
      rewrite E' in E; try discriminate;
      injection E as <- <- <-; rewrite E'; cbn; auto.
Qed.

End Runs.

(** ** On ASCII text every table gives the same result *)

Lemma scan_ascii db ls : forall prev,
  forallb (forallb is_ascii) ls = true ->
  scan db prev ls = scan ascii_db prev ls.
Proof.
  induction ls as [|l ls IH]; intros prev H; [reflexivity|].
  cbn [forallb] in H. apply andb_true_iff in H. destruct H as [Hl Hls].
  cbn [scan]. rewrite (IH _ Hls). unfold guard.
  rewrite (is_list_item_ascii db l Hl). reflexivity.
Qed.

Lemma fix_lines_ascii db lines :
  forallb (forallb is_ascii) lines = true ->
  fix_lines db lines = fix_lines ascii_db lines.
Proof. intros H. rewrite !fix_lines_scan. apply scan_ascii, H. Qed.

(** ** One file *)

Section FileTheorems.

Variable db : unicode_db.
Variable os : platform.

Lemma fix_leaves p fs text :
  read_file p fs = Some (Utf8 text) ->
  snd (fix_lines db (lines_of text)) = false ->
  fix_md032_in_file db os p fs = (Ok false, fs, [EvRead p]).
Proof.
  intros Hr Hm. apply settled_call. exists text. auto.
Qed.

Lemma fix_rewrites p fs text :
  read_file p fs = Some (Utf8 text) ->
  snd (fix_lines db (lines_of text)) = true ->
  exists fs',
    fix_md032_in_file db os p fs =
      (Ok true, fs', [EvRead p; EvWrite p; EvPrint (fixed_message os p)]) /\
    read_file p fs' =
      Some (Utf8 (write_newlines os
                    (concat (fst (fix_lines db (lines_of text)))))).
Proof.
  intros Hr Hm. pose proof (fix_md032_in_file_run db os p fs) as R.
  inversion R as [t Hr' Hm'|t fs' Hr' Hm' Hs|raw Hr'|Hr']; try congruence.
  assert (t = text) by congruence. subst t.
  exists fs'. split; [reflexivity|]. apply (store_read_same _ _ _ _ Hs).
Qed.

End FileTheorems.

(** C3.  Any non-blank line before a list item triggers the insertion,
    a list item included, so two adjacent list items are separated; and
    scenario 1: the text [Some text], [- item one], [- item two] becomes
    the same three lines with a blank line before each item, as lines,
    as text, and in the file on a POSIX system. *)
Theorem adjacent_items_separated db :
  (forall pre a b post,
     is_blank a = false -> is_list_item db b = true ->
     exists out1 out2,
       fix_lines db (pre ++ a :: b :: post) =
       (out1 ++ a :: py "\n" :: b :: out2, true)) /\
  (forall pre a b post,
     is_list_item db a = true -> is_list_item db b = true ->
     exists out1 out2,
       fix_lines db (pre ++ a :: b :: post) =
       (out1 ++ a :: py "\n" :: b :: out2, true)) /\
  fix_lines db (lines_of (py "Some text\n- item one\n- item two\n")) =
    (lines_of (py "Some text\n\n- item one\n\n- item two\n"), true) /\
  concat (lines_of (py "Some text\n\n- item one\n\n- item two\n")) =
    py "Some text\n\n- item one\n\n- item two\n" /\
  (forall p fs,
     read_file p fs = Some (Utf8 (py "Some text\n- item one\n- item two\n")) ->
     read_file p (fs_of (fix_md032_in_file db posix p fs)) =
       Some (Utf8 (py "Some text\n\n- item one\n\n- item two\n"))).
Proof.
  assert (E : fix_lines db (lines_of (py "Some text\n- item one\n- item two\n")) =
              (lines_of (py "Some text\n\n- item one\n\n- item two\n"), true)).
  { rewrite fix_lines_ascii by reflexivity. vm_compute. reflexivity. }
  split; [apply insertion_between|].
  split.
  { intros pre a b post Ha Hb. apply insertion_between; auto.
    apply (list_item_not_blank db a Ha). }
  split; [exact E|]. split; [apply concat_split_lines|].
  intros p fs Hr.
  destruct (fix_rewrites db posix p fs _ Hr) as (fs' & -> & Hw).
  - rewrite E. reflexivity.
  - cbn [fs_of fst snd]. rewrite Hw, E. reflexivity.
Qed.

(** C4.  A line is a list item exactly when, after its leading
    whitespace, it starts with [-], [*] or [+] and a whitespace character,
    or with one or more digits, a dot and a whitespace character;
    whitespace put before a line does not change its class. *)
Theorem list_item_classification db line :
  (is_list_item db line = true <-> spec_list_item db line) /\
  (forall indent,
     forallb Py_UNICODE_ISSPACE indent = true ->
     is_list_item db (indent ++ line) = is_list_item db line).
Proof.
  split; [apply is_list_item_spec|]. intros indent H.
  apply is_list_item_indent, H.
Qed.

(** C7.  The first line never triggers an insertion, whatever it holds:
    the guard fails at index 0 and the first output line is the first
    input line.  A file whose list items are all on its first line is
    left as it is: the loop returns its lines with [modified] false, and
    the call reads the file and does nothing else. *)
Theorem first_line_exempt db os p fs text :
  read_file p fs = Some (Utf8 text) ->
  inserts_before db (lines_of text) 0 = false /\
  nth_error (fst (fix_lines db (lines_of text))) 0 = nth_error (lines_of text) 0 /\
  ((forall i, 0 < i -> is_list_item db (nth i (lines_of text) []) = false) ->
   fix_lines db (lines_of text) = (lines_of text, false) /\
   fix_md032_in_file db os p fs = (Ok false, fs, [EvRead p])).
Proof.
  intros Hr. split; [|split].
  - unfold inserts_before. cbn. apply andb_false_r.
  - rewrite fix_lines_scan. destruct (lines_of text) as [|l ls]; [reflexivity|].
    cbn [scan]. destruct (scan db (Some l) ls) as [out m].
    unfold guard. rewrite andb_false_r. reflexivity.
  - intros H. pose proof (first_line_only db _ H) as E.
    split; [exact E|].
    apply (fix_leaves db os p fs text Hr). rewrite E. reflexivity.
Qed.

Lemma first_line_exempt_witness :
  read_file guide_md fs_first_item = Some (Utf8 (py "- item\n")) /\
  is_list_item ascii_db (py "- item\n") = true /\
  fix_lines ascii_db (lines_of (py "- item\n")) = ([py "- item\n"], false) /\
  fix_md032_in_file ascii_db posix guide_md fs_first_item =
    (Ok false, fs_first_item, [EvRead guide_md]).
Proof.
  split; [reflexivity|]. split; [reflexivity|].
  destruct (first_line_exempt ascii_db posix guide_md fs_first_item
              (py "- item\n") eq_refl) as (_ & _ & H).
  apply H. intros [|[|i]] Hi; [inversion Hi | reflexivity | reflexivity].
Defined.

(** C10.  A bullet or number marker followed at once by the newline is a
    list item, the newline being the whitespace the pattern asks for; the
    same marker with nothing after it, as on a last line without
    terminator, is not. *)
Theorem bare_marker_lines db :
  Py_UNICODE_ISSPACE LF = true /\
  is_list_item db (py "-\n") = true /\
  is_list_item db (py "*\n") = true /\
  is_list_item db (py "+\n") = true /\
  is_list_item db (py "1.\n") = true /\
  is_list_item db (py "-") = false /\
  is_list_item db (py "*") = false /\
  is_list_item db (py "+") = false /\
  is_list_item db (py "1.") = false /\
  fix_lines db (lines_of (py "text\n-\n")) =
    ([py "text\n"; py "\n"; py "-\n"], true) /\
  fix_lines db (lines_of (py "text\n-")) = ([py "text\n"; py "-"], false).
Proof.
  repeat split;
    try (rewrite is_list_item_ascii by reflexivity; reflexivity);
    try (rewrite fix_lines_ascii by reflexivity; reflexivity).
Qed.

(** Scenarios 3 and 4 of the specification, for every table. *)
Example scenario3_already_blank db :
  fix_lines db (lines_of (py "Para\n\n- item\n")) =
  (lines_of (py "Para\n\n- item\n"), false).
Proof. rewrite fix_lines_ascii by reflexivity. reflexivity. Qed.

Example scenario4_numbered db :
  fix_lines db (lines_of (py "1. first\n2. second\n")) =
  (lines_of (py "1. first\n\n2. second\n"), true).
Proof. rewrite fix_lines_ascii by reflexivity. reflexivity. Qed.

(** ** The whole script *)

Section ScriptTheorems.

Variable db : unicode_db.
Variable os : platform.

Lemma run_files_walk_stable ps : forall fs top,
  walk_of top (fs_of (run_files db os ps fs)) = walk_of top fs.
Proof.
  induction ps as [|p ps IH]; intros fs top; [reflexivity|].
  rewrite run_files_cons.
  destruct (fix_md032_in_file db os p fs) as [[[b|e] fs1] t1] eqn:E.
  - specialize (IH fs1 top).
    destruct (run_files db os ps fs1) as [[o2 fs2] t2]. cbn [fs_of fst snd] in *.
    rewrite IH. apply (fix_walk_stable db os p fs _ _ _ top E).
  - apply (fix_walk_stable db os p fs _ _ _ top E).
Qed.

(** The paths handed to [fix_md032_in_file] all end in [.md]. *)
Lemma md_paths_suffix triples p :
  In p (md_paths triples) ->
  exists root file, p = os_path_join root file /\ endswith file (py ".md") = true.
Proof.
  unfold md_paths. rewrite in_flat_map. intros ([[root dirs] files] & _ & H).
  cbn [fst snd] in H. apply in_map_iff in H. destruct H as (file & <- & Hf).
  apply filter_In in Hf. destruct Hf as [_ Hf]. eauto.
Qed.

Lemma not_md_not_listed triples root name :
  endswith name (py ".md") = false ->
  ~ In (os_path_join root name) (md_paths triples).
Proof.
  intros Hn H. apply md_paths_suffix in H.
  destruct H as (root' & file & E & Hf). unfold os_path_join in E.
  apply app_inj_tail in E. destruct E as [_ ->]. congruence.
Qed.

End ScriptTheorems.

(** C2.  Idempotence: applying the loop to its own output returns that
    output with [modified] false; the text written for a file reads back
    as the lines that were written, which a second pass leaves alone;
    and a second run of the script over the tree the first run left
    leaves the tree as it is, rewrites nothing and prints nothing. *)
Theorem normalization_idempotent db os :
  (forall lines,
     fix_lines db (fst (fix_lines db lines)) =
     (fst (fix_lines db lines), false)) /\
  (forall text,
     let normalized :=
       write_newlines os (concat (fst (fix_lines db (lines_of text)))) in
     lines_of normalized = fst (fix_lines db (lines_of text)) /\
     fix_lines db (lines_of normalized) = (lines_of normalized, false)) /\
  (forall fs,
     let first := main db os fs in
     let second := main db os (fs_of first) in
     fs_of second = fs_of first /\
     writes (trace_of second) = [] /\
     prints (trace_of second) = []).
Proof.
  split; [apply fix_lines_idempotent|]. split.
  - intros text. cbv zeta.
    destruct (reread_fixed db os text) as [E1 E2].
    unfold lines_of. rewrite E1. split; [reflexivity | exact E2].
  - intros fs. cbv zeta.
    rewrite (main_run_files db os fs).
    rewrite (main_run_files db os (fs_of _)).
    rewrite run_files_walk_stable.
    destruct (run_files_twice db os (md_paths (walk_of [py "docs"] fs)) fs)
      as (H1 & H2 & H3 & _).
    auto.
Qed.

(** C5, as amended.  For a file that decodes: it is rewritten exactly
    when the loop inserted a line, which is when some list item after the
    first line follows a non-blank line.  Without insertion the call
    only reads the file, and the tree is the one it was.  With an
    insertion the file receives the new lines joined, each [\n] written
    as [os.linesep]; read again these are exactly the new lines, so the
    lines are kept as they were read, terminators translated to [\n], and
    each inserted line is one [\n]; the write is followed by the report
    and no other file changes.  On a POSIX system a file without [\r] is
    read and written verbatim. *)
Theorem rewrite_iff_insertion db os p fs text :
  read_file p fs = Some (Utf8 text) ->
  let lines := lines_of text in
  let result_lines := fst (fix_lines db lines) in
  let modified := snd (fix_lines db lines) in
  let r := fix_md032_in_file db os p fs in
  (modified = true <-> exists i, inserts_before db lines i = true) /\
  (modified = false <-> forall i, inserts_before db lines i = false) /\
  (modified = false -> r = (Ok false, fs, [EvRead p])) /\
  (modified = true ->
     result_of r = Ok true /\
     trace_of r = [EvRead p; EvWrite p; EvPrint (fixed_message os p)] /\
     read_file p (fs_of r) =
       Some (Utf8 (write_newlines os (concat result_lines))) /\
     lines_of (write_newlines os (concat result_lines)) = result_lines /\
     read_file p (fs_of r) <> read_file p fs /\
     forall q, q <> p -> read_file q (fs_of r) = read_file q fs) /\
  (os = posix -> ~ In CR text ->
     concat lines = text /\
     write_newlines os (concat result_lines) = concat result_lines).
Proof.
  intros Hr. cbv zeta.
  split; [apply modified_iff|]. split; [apply unmodified_iff|].
  split; [apply (fix_leaves db os p fs text Hr)|]. split.
  - intros Hm.
    destruct (fix_rewrites db os p fs text Hr Hm) as (fs' & E & Hw).
    destruct (reread_fixed db os text) as [Hre _]. fold (lines_of text) in Hre.
    rewrite E. cbn [result_of trace_of fs_of fst snd].
    split; [reflexivity|]. split; [reflexivity|]. split; [exact Hw|].
    split; [exact Hre|]. split.
    + rewrite Hw, Hr. intros H. injection H as H.
      apply (f_equal lines_of) in H. unfold lines_of at 1 in H.
      rewrite Hre in H. apply (f_equal (@length str)) in H.
      pose proof (fix_lines_modified_longer db (lines_of text) Hm). lia.
    + intros q Hq. apply (fix_frame db os p fs _ _ _ q E Hq).
  - intros -> Hcr. unfold lines_of.
    rewrite write_newlines_posix, universal_newlines_id by assumption.
    split; [apply concat_split_lines | reflexivity].
Qed.

Lemma rewrite_iff_insertion_witness :
  read_file guide_md fs_scenario1 = Some (Utf8 scenario1_input) /\
  snd (fix_lines ascii_db (lines_of scenario1_input)) = true /\
  read_file guide_md
    (fs_of (fix_md032_in_file ascii_db posix guide_md fs_scenario1)) =
    Some (Utf8 scenario1_output).
Proof.
  split; [reflexivity|]. split; [reflexivity|].
  destruct (rewrite_iff_insertion ascii_db posix guide_md fs_scenario1
              scenario1_input eq_refl) as (_ & _ & _ & H & _).
  destruct (H eq_refl) as (_ & _ & Hw & _).
  rewrite Hw. reflexivity.
Defined.

(** C5, as stated, fails: on a POSIX system a file with [\r\n] line ends
    that gets an insertion is written back with [\n] line ends, so the
    terminators of its untouched lines are not preserved; and under
    Windows a file with [\n] line ends comes back with [\r\n] on every
    line, the inserted one included. *)
Lemma crlf_terminators_not_preserved :
  read_file guide_md fs_crlf = Some (Utf8 (py "a\r\n- b\r\n")) /\
  fix_md032_in_file ascii_db posix guide_md fs_crlf =
    (Ok true,
     docs_tree [(py "guide.md", text_file "a\n\n- b\n")],
     [EvRead guide_md; EvWrite guide_md;
      EvPrint (py "Fixed MD032 errors in docs/guide.md")]) /\
  read_file guide_md fs_scenario1 =
    Some (Utf8 (py "Some text\n- item one\n- item two\n")) /\
  read_file guide_md
    (fs_of (fix_md032_in_file ascii_db nt guide_md fs_scenario1)) =
    Some (Utf8 (py "Some text\r\n\r\n- item one\r\n\r\n- item two\r\n")).
Proof. repeat split; reflexivity. Qed.

(** C6, as amended.  The script takes no root: it walks [docs], and its
    value is [tt].  When the run completes, the files it rewrote are the
    Markdown files under [docs] that needed an insertion, in walk order,
    and what it reports is one printed line for each of them. *)
Theorem modified_files_printed db os fs :
  NoDup (md_paths (walk_of [py "docs"] fs)) ->
  result_of (main db os fs) = Ok tt ->
  writes (trace_of (main db os fs)) = normalize_spec db [py "docs"] fs /\
  prints (trace_of (main db os fs)) =
    map (fixed_message os) (normalize_spec db [py "docs"] fs).
Proof.
  rewrite main_run_files. intros N H.
  rewrite run_files_prints, (run_files_writes db os _ fs N H). auto.
Qed.

Lemma modified_files_printed_witness :
  normalize_spec ascii_db [py "docs"] fs_mixed =
    [[py "docs"; py "guide.md"]; [py "docs"; py "sub"; py "deep.md"]] /\
  prints (trace_of (main ascii_db posix fs_mixed)) =
    [py "Fixed MD032 errors in docs/guide.md";
     py "Fixed MD032 errors in docs/sub/deep.md"].
Proof.
  split; [reflexivity|].
  destruct (modified_files_printed ascii_db posix fs_mixed) as [_ ->].
  - repeat constructor; simpl; intuition discriminate.
  - reflexivity.
  - reflexivity.
Defined.

(** C6, as stated, fails: the script has no root argument and returns no
    paths.  With the Markdown files under [notes] the contract names
    [notes/guide.md], and the script does nothing; with them under [docs]
    the value is still [tt], and the modified file is only printed. *)
Lemma script_returns_no_paths :
  normalize_spec ascii_db [py "notes"] fs_notes_root =
    [[py "notes"; py "guide.md"]] /\
  main ascii_db posix fs_notes_root = (Ok tt, fs_notes_root, []) /\
  normalize_spec ascii_db [py "docs"] fs_scenario1 = [guide_md] /\
  main ascii_db posix fs_scenario1 =
    (Ok tt,
     docs_tree [(py "guide.md", File (Utf8 scenario1_output))],
     [EvRead guide_md; EvWrite guide_md;
      EvPrint (py "Fixed MD032 errors in docs/guide.md")]).
Proof. repeat split; reflexivity. Qed.

(** C8.  A file whose name does not end in [.md], the comparison being
    exact, is never opened for reading, never written, and holds after
    the run what it held before, whatever that is. *)
Theorem non_markdown_untouched db os fs root name :
  endswith name (py ".md") = false ->
  let p := os_path_join root name in
  let r := main db os fs in
  ~ In p (reads (trace_of r)) /\
  ~ In p (writes (trace_of r)) /\
  read_file p (fs_of r) = read_file p fs.
Proof.
  intros Hn. cbv zeta. rewrite main_run_files.
  pose proof (not_md_not_listed (walk_of [py "docs"] fs) root name Hn) as Hp.
  destruct (run_files_touches db os (md_paths (walk_of [py "docs"] fs)) fs)
    as [Hr Hw].
  split; [intros H; apply Hp, Hr, H|].
  split; [intros H; apply Hp, Hw, H|].
  apply run_files_frame, Hp.
Qed.

Lemma non_markdown_untouched_witness :
  endswith (py "notes.txt") (py ".md") = false /\
  endswith (py "README.MD") (py ".md") = false /\
  needs_fix ascii_db [py "docs"; py "notes.txt"] fs_mixed = true /\
  ~ In [py "docs"; py "notes.txt"] (reads (trace_of (main ascii_db posix fs_mixed))) /\
  ~ In [py "docs"; py "notes.txt"] (writes (trace_of (main ascii_db posix fs_mixed))) /\
  read_file [py "docs"; py "notes.txt"] (fs_of (main ascii_db posix fs_mixed)) =
    read_file [py "docs"; py "notes.txt"] fs_mixed.
Proof.
  split; [reflexivity|]. split; [reflexivity|]. split; [reflexivity|].
  apply (non_markdown_untouched ascii_db posix fs_mixed [py "docs"] (py "notes.txt")).
  reflexivity.
Defined.

(** C9.  When a selected file does not decode, and the files before it
    in the walk were processed without fault, the run ends there with
    [UnicodeDecodeError]: the tree and the trace are those of the files
    before it, plus the read that failed; the file itself is as it was;
    and the files after it are neither read nor changed. *)
Theorem decode_error_stops_run db os fs pre p post raw :
  md_paths (walk_of [py "docs"] fs) = pre ++ p :: post ->
  read_file p fs = Some (Undecodable raw) ->
  result_of (run_files db os pre fs) = Ok tt ->
  let before := run_files db os pre fs in
  let r := main db os fs in
  r = (Raise UnicodeDecodeError, fs_of before, trace_of before ++ [EvRead p]) /\
  writes (trace_of r) = writes (trace_of before) /\
  read_file p (fs_of r) = Some (Undecodable raw) /\
  (forall q, In q post -> ~ In q pre -> q <> p ->
     ~ In q (reads (trace_of r)) /\ ~ In q (writes (trace_of r)) /\
     read_file q (fs_of r) = read_file q fs).
Proof.
  intros Hw Hr Hok. cbv zeta.
  assert (E : main db os fs =
              (Raise UnicodeDecodeError, fs_of (run_files db os pre fs),
               trace_of (run_files db os pre fs) ++ [EvRead p])).
  { rewrite main_run_files, Hw, run_files_app.
    pose proof (run_files_undecodable db os pre fs p raw Hr) as Hr1.
    destruct (run_files db os pre fs) as [[o1 fs1] t1].
    cbn [result_of fs_of trace_of fst snd] in *. subst o1.
    rewrite run_files_cons.
    destruct (fix_md032_in_file_cases db os p fs1)
      as [(_ & _ & (text & N & _)) | [(fs' & _ & N) | [(raw' & E & _) | (_ & N)]]].
    - congruence.
    - unfold needs_fix in N. rewrite Hr1 in N. discriminate.
    - rewrite E. reflexivity.
    - congruence. }
  rewrite E. cbn [fs_of trace_of fst snd].
  destruct (run_files_touches db os pre fs) as [Tr Tw].
  split; [reflexivity|].
  split; [rewrite writes_app, app_nil_r; reflexivity|].
  split; [apply run_files_undecodable, Hr|].
  intros q Hq Hpre Hqp. rewrite reads_app, writes_app, app_nil_r.
  split; [|split].
  - intros H. apply in_app_or in H. destruct H as [H | [H | []]]; auto.
  - intros H. auto.
  - apply run_files_frame, Hpre.
Qed.

Lemma decode_error_stops_run_witness :
  main ascii_db posix fs_broken =
    (Raise UnicodeDecodeError,
     docs_tree [(py "a.md", text_file "a\n\n- b\n");
                (py "bad.md", File (Undecodable [0xC3; 0x28]%N));
                (py "c.md", text_file "x\n1. y\n")],
     [EvRead [py "docs"; py "a.md"]; EvWrite [py "docs"; py "a.md"];
      EvPrint (py "Fixed MD032 errors in docs/a.md");
      EvRead [py "docs"; py "bad.md"]]) /\
  needs_fix ascii_db [py "docs"; py "c.md"] fs_broken = true.
Proof.
  split; [|reflexivity].
  destruct (decode_error_stops_run ascii_db posix fs_broken
              [[py "docs"; py "a.md"]] [py "docs"; py "bad.md"]
              [[py "docs"; py "c.md"]] [0xC3; 0x28]%N
              eq_refl eq_refl eq_refl) as [-> _].
  reflexivity.
Defined.

(** * Further properties of the loop *)

Section LoopExtras.

Variable db : unicode_db.

Lemma scan_length_bounds ls : forall prev,
  length ls <= length (fst (scan db prev ls)) /\
  length (fst (scan db prev ls)) <= 2 * length ls.
Proof.
  induction ls as [|l ls IH]; intros prev; [simpl; lia|].
  cbn [scan]. specialize (IH (Some l)).
  destruct (scan db (Some l) ls) as [out m].
  destruct (guard db prev l); cbn [fst length] in *; lia.
Qed.

Lemma scan_members ls : forall prev l,
  In l (fst (scan db prev ls)) -> l = py "\n" \/ In l ls.
Proof.
  induction ls as [|x ls IH]; intros prev l; [intros []|].
  cbn [scan]. specialize (IH (Some x) l).
  destruct (scan db (Some x) ls) as [out m].
  destruct (guard db prev x); cbn [fst In] in *; intuition auto.
Qed.

Lemma scan_keeps_members ls : forall prev l,
  In l ls -> In l (fst (scan db prev ls)).
Proof.
  induction ls as [|x ls IH]; intros prev l; [intros []|].
  cbn [scan]. specialize (IH (Some x) l).
  destruct (scan db (Some x) ls) as [out m].
  destruct (guard db prev x); cbn [fst In] in *; intuition auto.
Qed.

Lemma scan_keeps_nonblank ls : forall prev,
  filter (fun l => negb (is_blank l)) (fst (scan db prev ls)) =
  filter (fun l => negb (is_blank l)) ls.
Proof.
  induction ls as [|x ls IH]; intros prev; [reflexivity|].
  cbn [scan]. specialize (IH (Some x)).
  destruct (scan db (Some x) ls) as [out m].
  destruct (guard db prev x); cbn [fst filter] in *; rewrite IH; reflexivity.
Qed.

Lemma scan_last ls : forall prev d,
  last (fst (scan db prev ls)) d = last ls d.
Proof.
  induction ls as [|x ls IH]; intros prev d; [reflexivity|].
  destruct ls as [|y ls].
  - cbn [scan]. destruct (guard db prev x); reflexivity.
  - specialize (IH (Some x) d).
    pose proof (scan_length_bounds (y :: ls) (Some x)) as [B _].
    remember (y :: ls) as rest eqn:R. cbn [scan].
    destruct (scan db (Some x) rest) as [out m]. cbn [fst] in *.
    assert (E : last (x :: out) d = last (x :: rest) d).
    { subst rest. destruct out as [|o out]; cbn [length] in B; [lia|]. exact IH. }
    destruct (guard db prev x); exact E.
Qed.

Lemma scan_after_blank p ls :
  is_blank p = true -> scan db (Some p) ls = scan db None ls.
Proof.
  intros H. destruct ls as [|l ls]; [reflexivity|].
  cbn [scan]. unfold guard. rewrite H. cbn [negb]. reflexivity.
Qed.

End LoopExtras.

(** X1.  The flag [modified] is accurate: it is false exactly when the
    loop returns the lines it was given; and the output has at least as
    many lines as the input and fewer than twice as many. *)
Theorem modified_flag_accurate db lines :
  (snd (fix_lines db lines) = false <-> fst (fix_lines db lines) = lines) /\
  length lines <= length (fst (fix_lines db lines)) /\
  length (fst (fix_lines db lines)) <= 2 * length lines - 1.
Proof.
  split; [split|].
  - apply fix_lines_unmodified.
  - intros E. destruct (snd (fix_lines db lines)) eqn:M; [|reflexivity].
    apply fix_lines_modified_longer in M. rewrite E in M. lia.
  - rewrite fix_lines_scan. split; [apply scan_length_bounds|].
    destruct lines as [|l ls]; [simpl; lia|].
    cbn [scan]. pose proof (scan_length_bounds db ls (Some l)) as [_ B].
    destruct (scan db (Some l) ls) as [out m].
    unfold guard. rewrite andb_false_r. cbn [fst length] in *. lia.
Qed.

(** X2.  The loop only adds lines that are a single newline: every output
    line is an input line or ["\n"], every input line is in the output,
    and the non-blank lines of the output are those of the input, in the
    same order. *)
Theorem only_newline_lines_added db lines :
  let out := fst (fix_lines db lines) in
  (forall l, In l out -> l = py "\n" \/ In l lines) /\
  (forall l, In l lines -> In l out) /\
  filter (fun l => negb (is_blank l)) out =
  filter (fun l => negb (is_blank l)) lines.
Proof.
  cbv zeta. rewrite fix_lines_scan. split; [|split].
  - apply scan_members.
  - apply scan_keeps_members.
  - apply scan_keeps_nonblank.
Qed.

(** X3.  Nothing is ever added after the last line: the last line of the
    output is the last line of the input (so a last line without
    terminator stays last and stays without one). *)
Theorem last_line_stays_last db lines d :
  last (fst (fix_lines db lines)) d = last lines d.
Proof. rewrite fix_lines_scan. apply scan_last. Qed.

(** X4.  A blank line cuts the work in two: the lines up to and including
    a blank line and the lines after it are transformed independently. *)
Theorem blank_line_separates db before blank after :
  is_blank blank = true ->
  fix_lines db (before ++ blank :: after) =
  (fst (fix_lines db (before ++ [blank])) ++ fst (fix_lines db after),
   snd (fix_lines db (before ++ [blank])) || snd (fix_lines db after)).
Proof.
  intros H. rewrite !fix_lines_scan.
  change (blank :: after) with ([blank] ++ after).
  rewrite app_assoc, scan_app, prev_of_snoc. cbv zeta.
  rewrite (scan_after_blank db blank after H). reflexivity.
Qed.

Lemma blank_line_separates_witness :
  fix_lines ascii_db
    ([py "Intro\n"; py "- a\n"] ++ py "\n" :: [py "Text\n"; py "1. b\n"]) =
  ([py "Intro\n"; py "\n"; py "- a\n"; py "\n"] ++
   [py "Text\n"; py "\n"; py "1. b\n"], true).
Proof.
  rewrite (blank_line_separates ascii_db
             [py "Intro\n"; py "- a\n"] (py "\n") [py "Text\n"; py "1. b\n"]
             eq_refl).
  reflexivity.
Defined.

(** * Further properties of one call *)

Lemma without_newlines_app a b :
  without_newlines (a ++ b) = without_newlines a ++ without_newlines b.
Proof. apply filter_app. Qed.

Lemma without_newlines_cons c s :
  without_newlines (c :: s) =
  if is_newline c then without_newlines s else c :: without_newlines s.
Proof. unfold without_newlines. cbn [filter]. destruct (is_newline c); reflexivity. Qed.

Lemma is_newline_not_cr c : (c =? CR)%N = false -> is_newline c = (c =? LF)%N.
Proof. unfold is_newline. intros ->. apply orb_false_r. Qed.

Lemma without_newlines_universal s :
  without_newlines (universal_newlines s) = without_newlines s.
Proof.
  induction s as [|a|a b l IH1 IH2] using list_ind2.
  - reflexivity.
  - cbn [universal_newlines]. destruct (a =? CR)%N eqn:Ha; [|reflexivity].
    apply N.eqb_eq in Ha. subst a. reflexivity.
  - cbn [universal_newlines] in *. destruct (a =? CR)%N eqn:Ha.
    + apply N.eqb_eq in Ha. subst a.
      rewrite (without_newlines_cons LF), (without_newlines_cons CR).
      change (is_newline LF) with true. change (is_newline CR) with true.
      cbn iota. destruct (b =? LF)%N eqn:Hb.
      * apply N.eqb_eq in Hb. subst b.
        rewrite (without_newlines_cons LF). exact IH1.
      * exact IH2.
    + rewrite !(without_newlines_cons a), IH2. reflexivity.
Qed.

Lemma without_newlines_write os s :
  without_newlines (write_newlines os s) = without_newlines s.
Proof.
  unfold write_newlines. induction s as [|a s IH]; [reflexivity|].
  cbn [flat_map]. rewrite without_newlines_app, IH.
  change (a :: s) with ([a] ++ s). rewrite without_newlines_app.
  destruct (N.eqb_spec a LF) as [->|Ha]; [destruct os|]; reflexivity.
Qed.

Lemma without_newlines_scan db ls : forall prev,
  without_newlines (concat (fst (scan db prev ls))) = without_newlines (concat ls).
Proof.
  induction ls as [|l ls IH]; intros prev; [reflexivity|].
  cbn [scan]. specialize (IH (Some l)).
  destruct (scan db (Some l) ls) as [out m].
  destruct (guard db prev l); cbn [fst concat] in *;
    rewrite !without_newlines_app, IH; reflexivity.
Qed.

Lemma rewritten_text_differs db os text :
  snd (fix_lines db (lines_of text)) = true ->
  write_newlines os (concat (fst (fix_lines db (lines_of text)))) <> text.
Proof.
  intros Hm E. apply (f_equal lines_of) in E. unfold lines_of at 1 in E.
  destruct (reread_fixed db os text) as [Hre _]. fold (lines_of text) in Hre.
  rewrite Hre in E. apply (f_equal (@length str)) in E.
  pose proof (fix_lines_modified_longer db (lines_of text) Hm). lia.
Qed.

(** X5.  A call never changes, adds or removes a character other than a
    line terminator: with [\n] and [\r] taken out, the text of the file
    after the call is the text before it, on every platform. *)
Theorem characters_preserved db os p fs text :
  read_file p fs = Some (Utf8 text) ->
  exists text',
    read_file p (fs_of (fix_md032_in_file db os p fs)) = Some (Utf8 text') /\
    without_newlines text' = without_newlines text.
Proof.
  intros Hr.
  destruct (snd (fix_lines db (lines_of text))) eqn:Hm.
  - destruct (fix_rewrites db os p fs text Hr Hm) as (fs' & -> & Hw).
    eexists. split; [exact Hw|].
    rewrite without_newlines_write, fix_lines_scan, without_newlines_scan.
    unfold lines_of. rewrite concat_split_lines.
    apply without_newlines_universal.
  - rewrite (fix_leaves db os p fs text Hr Hm). exists text. auto.
Qed.

Lemma characters_preserved_witness :
  exists text',
    read_file guide_md (fs_of (fix_md032_in_file ascii_db nt guide_md fs_crlf)) =
      Some (Utf8 text') /\
    without_newlines text' = py "a- b".
Proof.
  exact (characters_preserved ascii_db nt guide_md fs_crlf (py "a\r\n- b\r\n") eq_refl).
Defined.

(** X6.  The value a call returns tells whether it changed anything: it
    is [True] exactly when the tree differs after the call, exactly when
    the file was written, and exactly when the report was printed. *)
Theorem return_value_tells_change db os p fs :
  let r := fix_md032_in_file db os p fs in
  (result_of r = Ok true <-> fs_of r <> fs) /\
  (result_of r = Ok true <-> writes (trace_of r) = [p]) /\
  (result_of r = Ok true <-> prints (trace_of r) = [fixed_message os p]).
Proof.
  cbv zeta.
  destruct (fix_md032_in_file_cases db os p fs)
    as [(E & _ & _) | [(fs' & E & N) | [(raw & E & _) | (E & _)]]];
    rewrite E; cbn [result_of fs_of trace_of fst snd writes prints flat_map app].
  - repeat split; try discriminate; intros X; congruence.
  - repeat split; auto; try discriminate. intros _ X. subst fs'.
    unfold needs_fix in N.
    destruct (read_file p fs) as [[text|raw]|] eqn:Hr; try discriminate.
    destruct (fix_rewrites db os p fs text Hr N) as (fs2 & E2 & Hw).
    rewrite E in E2. injection E2 as <-. rewrite Hr in Hw. injection Hw as Hw.
    symmetry in Hw. apply (rewritten_text_differs db os text N Hw).
  - repeat split; try discriminate; intros X; congruence.
  - repeat split; try discriminate; intros X; congruence.
Qed.

(** * Further properties of the run *)

Section RunExtras.

Variable db : unicode_db.
Variable os : platform.


Lemma run_files_reads_prefix ps : forall fs,
  exists rest,
    ps = reads (trace_of (run_files db os ps fs)) ++ rest /\
    (result_of (run_files db os ps fs) = Ok tt -> rest = []).
Proof.
  induction ps as [|p ps IH]; intros fs.
  - exists []. auto.
  - rewrite run_files_cons.
    destruct (fix_md032_in_file_cases db os p fs)
      as [(E & _ & _) | [(fs' & E & _) | [(raw & E & _) | (E & _)]]]; rewrite E.
    + destruct (IH fs) as (rest & Hps & Hok).
      destruct (run_files db os ps fs) as [[o2 fs2] t2].
      cbn [trace_of result_of fst snd] in *. exists rest.
      rewrite reads_app. cbn. split; [congruence | exact Hok].
    + destruct (IH fs') as (rest & Hps & Hok).
      destruct (run_files db os ps fs') as [[o2 fs2] t2].
      cbn [trace_of result_of fst snd] in *. exists rest.
      rewrite reads_app. cbn. split; [congruence | exact Hok].
    + exists ps. cbn. split; [reflexivity | discriminate].
    + exists (p :: ps). cbn. split; [reflexivity | discriminate].
Qed.

Lemma run_files_all_settled ps : forall fs p,
  result_of (run_files db os ps fs) = Ok tt ->
  In p ps -> settled db p (fs_of (run_files db os ps fs)).
Proof.
  induction ps as [|q ps IH]; intros fs p Hok Hp; [destruct Hp|].
  rewrite run_files_cons in *.
  destruct (fix_md032_in_file db os q fs) as [[[b|e] fs1] t1] eqn:E;
    [|discriminate].
  pose proof (fix_settles db os q fs b fs1 t1 E) as S1.
  pose proof (run_files_settled db os ps fs1 q S1) as S2.
  specialize (IH fs1 p).
  destruct (run_files db os ps fs1) as [[o2 fs2] t2].
  cbn [result_of fs_of fst snd] in *.
  destruct Hp as [<- | Hp]; auto.
Qed.

Lemma run_files_clean ps : forall fs,
  (forall p, In p ps -> needs_fix db p fs = false) ->
  fs_of (run_files db os ps fs) = fs /\
  writes (trace_of (run_files db os ps fs)) = [] /\
  prints (trace_of (run_files db os ps fs)) = [].
Proof.
  induction ps as [|p ps IH]; intros fs H; [auto|].
  rewrite run_files_cons.
  assert (Hps : forall q, In q ps -> needs_fix db q fs = false)
    by (intros q Hq; apply H; right; assumption).
  destruct (fix_md032_in_file_cases db os p fs)
    as [(E & _ & _) | [(fs' & E & N) | [(raw & E & _) | (E & _)]]]; rewrite E.
  - specialize (IH fs Hps).
    destruct (run_files db os ps fs) as [[o2 fs2] t2].
    cbn [fs_of trace_of fst snd] in *. rewrite writes_app, prints_app. exact IH.
  - rewrite (H p) in N by (left; reflexivity). discriminate.
  - auto.
  - auto.
Qed.

(** What a call does to its own file depends only on what the file
    holds. *)
Lemma fix_result_local p fs1 fs2 :
  read_file p fs1 = read_file p fs2 ->
  read_file p (fs_of (fix_md032_in_file db os p fs1)) =
  read_file p (fs_of (fix_md032_in_file db os p fs2)).
Proof.
  intros H.
  pose proof (fix_md032_in_file_run db os p fs1) as R1.
  pose proof (fix_md032_in_file_run db os p fs2) as R2.
  destruct (fix_md032_in_file db os p fs1) as [[o1 a1] t1].
  destruct (fix_md032_in_file db os p fs2) as [[o2 a2] t2].
  cbn [fs_of fst snd].
  inversion R1 as [x1 Hr1 Hm1|x1 f1 Hr1 Hm1 Hs1|r1 Hr1|Hr1];
    inversion R2 as [x2 Hr2 Hm2|x2 f2 Hr2 Hm2 Hs2|r2 Hr2|Hr2]; subst;
    try congruence.
  rewrite (store_read_same _ _ _ _ Hs1), (store_read_same _ _ _ _ Hs2).
  congruence.
Qed.

Lemma settled_content_kept ps : forall fs p,
  settled db p fs ->
  read_file p (fs_of (run_files db os ps fs)) = read_file p fs.
Proof.
  induction ps as [|q ps IH]; intros fs p H; [reflexivity|].
  rewrite run_files_cons.
  destruct (path_eq_dec p q) as [->|Hq].
  - rewrite (settled_call db os q fs H). specialize (IH fs q H).
    destruct (run_files db os ps fs) as [[o2 fs2] t2]. exact IH.
  - destruct (fix_md032_in_file db os q fs) as [[[b|e] fs1] t1] eqn:E.
    + pose proof (fix_frame db os q fs _ _ _ p E Hq) as F.
      assert (S1 : settled db p fs1).
      { destruct H as (text & Hr & Hm). exists text. split; congruence. }
      specialize (IH fs1 p S1).
      destruct (run_files db os ps fs1) as [[o2 fs2] t2].
      cbn [fs_of fst snd] in *. congruence.
    + apply (fix_frame db os q fs _ _ _ p E Hq).
Qed.

Lemma run_files_independent ps : forall fs p,
  result_of (run_files db os ps fs) = Ok tt ->
  In p ps ->
  read_file p (fs_of (run_files db os ps fs)) =
  read_file p (fs_of (fix_md032_in_file db os p fs)).
Proof.
  induction ps as [|q ps IH]; intros fs p Hok Hp; [destruct Hp|].
  rewrite run_files_cons in *.
  destruct (fix_md032_in_file db os q fs) as [[[b|e] fs1] t1] eqn:E;
    [|discriminate].
  destruct (path_eq_dec p q) as [->|Hq].
  - pose proof (fix_settles db os q fs b fs1 t1 E) as S1.
    pose proof (settled_content_kept ps fs1 q S1) as K.
    destruct (run_files db os ps fs1) as [[o2 fs2] t2].
    rewrite E. cbn [fs_of fst snd] in *. exact K.
  - destruct Hp as [-> | Hp]; [contradiction|].
    specialize (IH fs1 p).
    pose proof (fix_frame db os q fs _ _ _ p E Hq) as F.
    destruct (run_files db os ps fs1) as [[o2 fs2] t2].
    cbn [result_of fs_of fst snd] in *.
    rewrite (IH Hok Hp). apply fix_result_local. exact F.
Qed.

End RunExtras.

(** * Further properties of the walk *)







(** * Further properties of the script *)


(** X8.  The selected files are read one by one in walk order: what has
    been read is always an initial part of the list, and the whole list
    when the run completes. *)
Theorem files_read_in_walk_order db os fs :
  exists unread,
    md_paths (walk_of [py "docs"] fs) =
      reads (trace_of (main db os fs)) ++ unread /\
    (result_of (main db os fs) = Ok tt -> unread = []).
Proof. rewrite main_run_files. apply run_files_reads_prefix. Qed.




(** X11.  When the run completes, every selected file is text in which
    each list item after the first line follows a blank line. *)
Theorem completed_run_establishes_invariant db os fs p :
  result_of (main db os fs) = Ok tt ->
  In p (md_paths (walk_of [py "docs"] fs)) ->
  exists text,
    read_file p (fs_of (main db os fs)) = Some (Utf8 text) /\
    forall j, 0 < j ->
      is_list_item db (nth j (lines_of text) []) = true ->
      is_blank (nth (j - 1) (lines_of text) []) = true.
Proof.
  rewrite main_run_files. intros Hok Hp.
  destruct (run_files_all_settled db os _ fs p Hok Hp) as (text & Hr & Hm).
  exists text. split; [exact Hr|]. intros j Hj Hl.
  pose proof (proj1 (unmodified_iff db (lines_of text)) Hm j) as G.
  unfold inserts_before in G. rewrite Hl in G.
  apply Nat.ltb_lt in Hj. rewrite Hj in G. cbn in G.
  apply negb_false_iff in G. exact G.
Qed.

Lemma completed_run_establishes_invariant_witness :
  exists text,
    read_file [py "docs"; py "sub"; py "deep.md"]
      (fs_of (main ascii_db posix fs_mixed)) = Some (Utf8 text) /\
    forall j, 0 < j ->
      is_list_item ascii_db (nth j (lines_of text) []) = true ->
      is_blank (nth (j - 1) (lines_of text) []) = true.
Proof.
  apply (completed_run_establishes_invariant ascii_db posix fs_mixed).
  - reflexivity.
  - simpl. auto.
Defined.

(** X12.  When no selected file needs an insertion the script changes
    nothing, writes nothing and prints nothing. *)
Theorem clean_tree_untouched db os fs :
  (forall p, In p (md_paths (walk_of [py "docs"] fs)) ->
             needs_fix db p fs = false) ->
  fs_of (main db os fs) = fs /\
  writes (trace_of (main db os fs)) = [] /\
  prints (trace_of (main db os fs)) = [].
Proof. rewrite main_run_files. apply run_files_clean. Qed.

Lemma clean_tree_untouched_witness :
  fs_of (main ascii_db posix fs_first_item) = fs_first_item /\
  writes (trace_of (main ascii_db posix fs_first_item)) = [] /\
  prints (trace_of (main ascii_db posix fs_first_item)) = [].
Proof.
  apply (clean_tree_untouched ascii_db posix fs_first_item).
  intros p [<- | []]. reflexivity.
Defined.

(** X13.  The selected files do not influence one another: when the run
    completes, each holds what a single call on the tree as it was at
    the start would have left in it. *)
Theorem files_processed_independently db os fs p :
  result_of (main db os fs) = Ok tt ->
  In p (md_paths (walk_of [py "docs"] fs)) ->
  read_file p (fs_of (main db os fs)) =
  read_file p (fs_of (fix_md032_in_file db os p fs)).
Proof. rewrite main_run_files. apply run_files_independent. Qed.

Lemma files_processed_independently_witness :
  read_file [py "docs"; py "sub"; py "deep.md"]
    (fs_of (main ascii_db posix fs_mixed)) =
  read_file [py "docs"; py "sub"; py "deep.md"]
    (fs_of (fix_md032_in_file ascii_db posix
              [py "docs"; py "sub"; py "deep.md"] fs_mixed)).
Proof.
  apply (files_processed_independently ascii_db posix fs_mixed).
  - reflexivity.
  - simpl. auto.
Defined.

(** X14.  The script never adds, removes or renames a file or a
    directory: from any directory, [os.walk] lists after the run what it
    listed before. *)
Theorem tree_shape_unchanged db os fs top :
  walk_of top (fs_of (main db os fs)) = walk_of top fs.
Proof. rewrite main_run_files. apply run_files_walk_stable. Qed.
